(** * dagger_rocker: extension activation, ordering and the run pipeline

    A shallow embedding of [dagger_rocker/core.py] (the extension registry,
    [get_active_extensions], [_sort_extensions], [build_and_run], [run]) and
    of the two command-line entry points [cli.py] and [main.py], followed by
    the properties of the resolver, the scheduler and the pipeline runner. *)

From Stdlib Require Import Ascii.
From stdpp Require Import base option list relations gmap strings.

Set Warnings "-clear-no-such-hyp".

Open Scope string_scope.
Open Scope list_scope.

(** ** Python values, exceptions, outcomes *)

(** The values an argparse namespace holds for this program. *)
Inductive Value :=
  | VNone
  | VBool (b : bool)
  | VStr (s : string)
  | VList (l : list string).

(** Python's [bool(v)]. *)
Definition truthy (v : Value) : bool :=
  match v with
  | VNone => false
  | VBool b => b
  | VStr s => negb (String.eqb s "")
  | VList l => negb (Nat.eqb (length l) 0)
  end.

Inductive exn :=
  | ValueError (msg : string)
  | KeyError (key : string)
  | RuntimeError (msg : string).

(** What a call does: it returns, it raises, or it has not returned within
    the recursion/iteration budget given to the model. *)
Inductive outcome (A : Type) :=
  | Ok (a : A)
  | Raise (e : exn)
  | Diverge.
Arguments Ok {A} a.
Arguments Raise {A} e.
Arguments Diverge {A}.

#[global] Instance outcome_bind : MBind outcome := fun A B k o =>
  match o with
  | Ok a => k a
  | Raise e => Raise e
  | Diverge => Diverge
  end.

(** [for x in l: st = body(x, st)], stopping at the first exception. *)
Fixpoint for_each {A S} (body : A -> S -> outcome S) (l : list A) (st : S)
  : outcome S :=
  match l with
  | [] => Ok st
  | x :: l' => st' ← body x st; for_each body l' st'
  end.

(** ** Insertion-ordered dictionaries with string keys

    A Python [dict] keeps its keys in insertion order, and the scheduler's
    output depends on that order, so a dictionary is an association list
    with the oldest key first. *)

Definition dict (V : Type) := list (string * V).

Fixpoint dict_get {V} (k : string) (d : dict V) : option V :=
  match d with
  | [] => None
  | (k', v) :: d' => if decide (k' = k) then Some v else dict_get k d'
  end.

(** [k in d] *)
Definition dict_mem {V} (k : string) (d : dict V) : bool :=
  match dict_get k d with Some _ => true | None => false end.

(** [d[k] = v]: an existing key keeps its place, a new key goes last. *)
Fixpoint dict_set {V} (k : string) (v : V) (d : dict V) : dict V :=
  match d with
  | [] => [(k, v)]
  | (k', v') :: d' =>
      if decide (k' = k) then (k', v) :: d' else (k', v') :: dict_set k v d'
  end.

Definition keys {V} (d : dict V) : list string := d.*1.
Definition values {V} (d : dict V) : list V := d.*2.

(** [args] is the dictionary [vars(parser.parse_args())]. *)
Definition Args := dict Value.

(** [args.get(k)] *)
Definition args_get (k : string) (args : Args) : Value :=
  match dict_get k args with Some v => v | None => VNone end.

Section Core.

(** [dagger.Container] belongs to the dagger SDK; the program only threads
    it through. *)
Context {Container : Type}.

(** ** class DaggerRockerExtension

    [get_dependencies] and [get_load_order_hints] return Python sets; the
    list is the order in which the set is iterated. *)
Record Extension := {
  get_name : string;
  check_args_for_activation : Args -> bool;
  get_dependencies : list string;
  get_load_order_hints : list string;
  validate_environment : Args -> outcome unit;
  setup_container : Container -> Args -> outcome Container;
}.

(** The base class's [check_args_for_activation]:
    [bool(args.get(self.get_name()))]. *)
Definition default_check_args_for_activation (name : string) (args : Args)
  : bool :=
  truthy (args_get name args).

(** ** class DaggerRockerCore: registry and resolver *)

(** [self.extensions[extension.get_name()] = extension] *)
Definition register_extension (extension : Extension)
    (extensions : dict Extension) : dict Extension :=
  dict_set (get_name extension) extension extensions.

(** The first loop of [get_active_extensions]. *)
Definition initially_requested (extensions : dict Extension) (args : Args)
  : dict Extension :=
  fold_left
    (fun active '(name, ext) =>
       if check_args_for_activation ext args
       then dict_set name ext active else active)
    extensions [].

(** [for dep_name in ext.get_dependencies(): ...], on the pair
    [(active, changed)]. The test [dep_name in self.extensions] and the
    read [self.extensions[dep_name]] are one lookup. *)
Fixpoint add_dependencies (extensions : dict Extension) (deps : list string)
    (st : dict Extension * bool) : dict Extension * bool :=
  match deps with
  | [] => st
  | dep_name :: deps' =>
      let '(active, changed) := st in
      if dict_mem dep_name active then add_dependencies extensions deps' st
      else
        match dict_get dep_name extensions with
        | Some e =>
            add_dependencies extensions deps'
              (dict_set dep_name e active, true)
        | None => add_dependencies extensions deps' st
        end
  end.

(** One pass of [for name, ext in list(active.items())]: the snapshot is
    iterated, the live [active] is tested and updated. *)
Definition scan (extensions : dict Extension) (active : dict Extension)
  : dict Extension * bool :=
  fold_left
    (fun st '(_, ext) =>
       add_dependencies extensions (get_dependencies ext) st)
    active (active, false).

(** [while changed: ...]; [fuel] bounds the number of passes. *)
Fixpoint expand (fuel : nat) (extensions : dict Extension)
    (active : dict Extension) : outcome (dict Extension) :=
  match fuel with
  | 0 => Diverge
  | S fuel' =>
      let '(active', changed) := scan extensions active in
      if changed then expand fuel' extensions active' else Ok active'
  end.

(** The dictionary [active] just before [self._sort_extensions] is called. *)
Definition resolve_active (extensions : dict Extension) (args : Args)
  : outcome (dict Extension) :=
  expand (S (length extensions)) extensions
    (initially_requested extensions args).

(** ** The scheduler: [_sort_extensions] / [topological_sort] *)

Record SortState := {
  visited : gset string;
  temp_visited : gset string;
  result : list Extension;
}.

Definition circular (name : string) : exn :=
  ValueError ("Circular dependency detected involving " +:+ name).

(** The inner function [visit]; [fuel] bounds the recursion depth (the
    interpreter's own recursion limit is not modelled). [temp_visited] and
    [visited] are Python sets. [temp_visited.remove(name)] finds [name]
    present, since it was added above and every returning call leaves
    [temp_visited] as it found it. *)
Fixpoint visit (fuel : nat) (items : dict Extension) (name : string)
    (st : SortState) : outcome SortState :=
  match fuel with
  | 0 => Diverge
  | S fuel' =>
      if decide (name ∈ temp_visited st) then Raise (circular name)
      else if decide (name ∈ visited st) then Ok st
      else
        let st1 := {| visited := visited st;
                      temp_visited := {[name]} ∪ temp_visited st;
                      result := result st |} in
        st2 ← match dict_get name items with
               | Some ext =>
                   for_each
                     (fun dep s =>
                        if dict_mem dep items
                        then visit fuel' items dep s else Ok s)
                     (get_load_order_hints ext) st1
               | None => Ok st1
               end;
        Ok {| visited := {[name]} ∪ visited st2;
              temp_visited := temp_visited st2 ∖ {[name]};
              result := match dict_get name items with
                        | Some ext => result st2 ++ [ext]
                        | None => result st2
                        end |}
  end.

Definition topological_sort (fuel : nat) (items : dict Extension)
  : outcome (list Extension) :=
  st ← for_each (visit fuel items) (keys items)
          {| visited := ∅; temp_visited := ∅; result := [] |};
  Ok (result st).

Definition _sort_extensions (extensions : dict Extension) (args : Args)
  : outcome (list Extension) :=
  topological_sort (S (length extensions)) extensions.

Definition get_active_extensions (extensions : dict Extension) (args : Args)
  : outcome (list Extension) :=
  active ← resolve_active extensions args;
  _sort_extensions active args.

(** ** The build backend and the effects of a run

    The dagger SDK is an external collaborator: [from_] and [with_exec]
    build a request, [stdout] and [sync] execute it. *)
Record Backend := {
  connect : outcome unit;
  from_ : Value -> Container;
  with_exec : Value -> Container -> Container;
  stdout : Container -> outcome string;
  sync : Container -> outcome Container;
}.

(** One constructor per [print] statement of the entry points, holding the
    interpolated values. *)
Inductive Line :=
  | LActive (names : list string)
  | LResolveError (e : exn)
  | LValidateError (name : string) (e : exn)
  | LDryRun
  | LImage (image : Value)
  | LCommand (command : Value)
  | LOrderHeader
  | LOrderItem (i : nat) (name : string)
  | LResult (out : string)
  | LRunError (e : exn).

(** The observable calls, in the order they are made. *)
Inductive Event :=
  | EvValidate (name : string)
  | EvConnect
  | EvDisconnect
  | EvFrom (image : Value)
  | EvSetup (name : string) (c : Container)
  | EvWithExec (argv : Value) (c : Container)
  | EvStdout (c : Container)
  | EvSync (c : Container)
  | EvPrint (l : Line).

(** The fields of a [DaggerRockerCore] object. *)
Record Core := {
  extensions : dict Extension;
  active_extensions : list Extension;
}.

Definition new_core : Core := {| extensions := []; active_extensions := [] |}.

(** Computations on a core object: the calls made, the object afterwards,
    and how the computation ended. *)
Definition M (A : Type) : Type := Core -> list Event * Core * outcome A.

#[global] Instance M_ret : MRet M := fun A a s => ([], s, Ok a).

#[global] Instance M_bind : MBind M := fun A B k m s =>
  let '(t1, s1, o) := m s in
  match o with
  | Ok a => let '(t2, s2, o2) := k a s1 in (t1 ++ t2, s2, o2)
  | Raise e => (t1, s1, Raise e)
  | Diverge => (t1, s1, Diverge)
  end.

Definition emit (ev : Event) : M unit := fun s => ([ev], s, Ok tt).
Definition lift {A} (o : outcome A) : M A := fun s => ([], s, o).
Definition get_core : M Core := fun s => ([], s, Ok s).
Definition print (l : Line) : M unit := emit (EvPrint l).

(** [self.extensions[...] = ...] and [self.active_extensions = ...] *)
Definition do_register (ext : Extension) : M unit :=
  fun s =>
    ([], {| extensions := register_extension ext (extensions s);
            active_extensions := active_extensions s |}, Ok tt).
Definition set_active (l : list Extension) : M unit :=
  fun s => ([], {| extensions := extensions s; active_extensions := l |},
            Ok tt).

(** [try: m  except Exception as e: handler e] *)
Definition try_except {A} (m : M A) (handler : exn -> M A) : M A :=
  fun s =>
    let '(t1, s1, o) := m s in
    match o with
    | Raise e => let '(t2, s2, o2) := handler e s1 in (t1 ++ t2, s2, o2)
    | _ => (t1, s1, o)
    end.

Context (backend : Backend).

(** Leaving the [async with] block closes the connection however [body]
    ends. *)
Definition closing {A} (body : M A) : M A :=
  fun s =>
    let '(t, s', o) := body s in
    match o with
    | Diverge => (t, s', Diverge)
    | _ => (t ++ [EvDisconnect], s', o)
    end.

(** [async with dagger.Connection(...) as client: body] *)
Definition with_connection {A} (body : M A) : M A :=
  emit EvConnect;;
  lift (connect backend);;
  closing body.

(** [args[k]] *)
Definition args_item (k : string) (args : Args) : outcome Value :=
  match dict_get k args with
  | Some v => Ok v
  | None => Raise (KeyError k)
  end.

(** [for ext in ...: ext.validate_environment(args)] *)
Fixpoint validate_all (exts : list Extension) (args : Args) : M unit :=
  match exts with
  | [] => mret tt
  | ext :: exts' =>
      emit (EvValidate (get_name ext));;
      lift (validate_environment ext args);;
      validate_all exts' args
  end.

(** [for ext in ...: container = await ext.setup_container(container, args)] *)
Fixpoint apply_extensions (exts : list Extension) (container : Container)
    (args : Args) : M Container :=
  match exts with
  | [] => mret container
  | ext :: exts' =>
      emit (EvSetup (get_name ext) container);;
      container' ← lift (setup_container ext container args);
      apply_extensions exts' container' args
  end.

(** [client.container().from_(args['image'])] *)
Definition base_container (args : Args) : M Container :=
  image ← lift (args_item "image" args);
  emit (EvFrom image);;
  mret (from_ backend image).

Definition build_and_run (args : Args) : M Container :=
  with_connection (
    container ← base_container args;
    self ← get_core;
    container ← apply_extensions (active_extensions self) container args;
    if truthy (args_get "command" args) then
      command ← lift (args_item "command" args);
      emit (EvWithExec command container);;
      emit (EvSync (with_exec backend command container));;
      lift (sync backend (with_exec backend command container))
    else
      let command := VList ["/bin/bash"] in
      emit (EvWithExec command container);;
      emit (EvSync (with_exec backend command container));;
      lift (sync backend (with_exec backend command container))).

Definition run (args : Args) : M string :=
  self ← get_core;
  active ← lift (get_active_extensions (extensions self) args);
  set_active active;;
  self ← get_core;
  validate_all (active_extensions self) args;;
  with_connection (
    container ← base_container args;
    self ← get_core;
    container ← apply_extensions (active_extensions self) container args;
    if truthy (args_get "command" args) then
      command ← lift (args_item "command" args);
      emit (EvWithExec command container);;
      emit (EvStdout (with_exec backend command container));;
      lift (stdout backend (with_exec backend command container))
    else
      let command :=
        VList ["/bin/bash"; "-c"; "echo 'No command specified'"] in
      emit (EvWithExec command container);;
      emit (EvStdout (with_exec backend command container));;
      lift (stdout backend (with_exec backend command container))).

(** ** The entry points

    [builtin] is the list [extensions = [BasicExtension(), ...]] and
    [args_dict] is [vars(parser.parse_args())]; building the parser
    ([register_arguments]) and parsing the command line are argparse's
    work and happen outside the model. The result is the exit status the
    function returns. *)

Fixpoint register_all (builtin : list Extension) : M unit :=
  match builtin with
  | [] => mret tt
  | ext :: rest => do_register ext;; register_all rest
  end.

(** The validation loop of [cli.py] and [main.py]: [Some 1] is the early
    [return 1]. *)
Fixpoint validate_or_return (exts : list Extension) (args_dict : Args)
  : M (option nat) :=
  match exts with
  | [] => mret None
  | ext :: exts' =>
      r ← try_except
            (emit (EvValidate (get_name ext));;
             lift (validate_environment ext args_dict);;
             mret None)
            (fun e =>
               print (LValidateError (get_name ext) e);;
               mret (Some 1));
      match r with
      | Some code => mret (Some code)
      | None => validate_or_return exts' args_dict
      end
  end.

(** [for i, ext in enumerate(core.active_extensions, 1): print(...)] *)
Fixpoint print_order (i : nat) (exts : list Extension) : M unit :=
  match exts with
  | [] => mret tt
  | ext :: exts' =>
      print (LOrderItem i (get_name ext));; print_order (S i) exts'
  end.

(** [print(f"Image: ...")] and the optional [print(f"Command: ...")] *)
Definition print_image_command (args_dict : Args) : M unit :=
  image ← lift (args_item "image" args_dict);
  print (LImage image);;
  if truthy (args_get "command" args_dict) then
    command ← lift (args_item "command" args_dict);
    print (LCommand command)
  else mret tt.

(** [cli.py], [main]. *)
Definition cli_main (builtin : list Extension) (args_dict : Args) : M nat :=
  register_all builtin;;
  r ← try_except
        (core ← get_core;
         active ← lift (get_active_extensions (extensions core) args_dict);
         set_active active;;
         print (LActive (get_name <$> active));;
         mret None)
        (fun e => print (LResolveError e);; mret (Some 1));
  match r with
  | Some code => mret code
  | None =>
      core ← get_core;
      r ← validate_or_return (active_extensions core) args_dict;
      match r with
      | Some code => mret code
      | None =>
          if truthy (args_get "dry_run" args_dict) then
            print LDryRun;;
            print_image_command args_dict;;
            print LOrderHeader;;
            core ← get_core;
            print_order 1 (active_extensions core);;
            mret 0
          else
            try_except
              (result ← run args_dict;
               print (LResult result);;
               mret 0)
              (fun e => print (LRunError e);; mret 1)
      end
  end.

(** [main.py], [main]. *)
Definition main_main (builtin : list Extension) (args_dict : Args) : M nat :=
  register_all builtin;;
  core ← get_core;
  active ← lift (get_active_extensions (extensions core) args_dict);
  set_active active;;
  print (LActive (get_name <$> active));;
  core ← get_core;
  r ← validate_or_return (active_extensions core) args_dict;
  match r with
  | Some code => mret code
  | None =>
      if truthy (args_get "dry_run" args_dict) then
        print LDryRun;;
        print_image_command args_dict;;
        mret 0
      else
        try_except
          (build_and_run args_dict;; mret 0)
          (fun e => print (LRunError e);; mret 1)
  end.

End Core.

Arguments Extension : clear implicits.
Arguments Backend : clear implicits.
Arguments Event : clear implicits.
Arguments Core : clear implicits.
Arguments SortState : clear implicits.

(** * The built-in extensions and the third entry point *)

(** ** Python string operations *)

(** [sep in s], for a one-character [sep]. *)
Fixpoint py_contains (sep : ascii) (s : string) : bool :=
  match s with
  | "" => false
  | String c s' => if decide (c = sep) then true else py_contains sep s'
  end.

(** [s.split(sep)], for a one-character [sep]: the first part and the
    parts after it (Python's list is never empty). *)
Fixpoint py_split (sep : ascii) (s : string) : string * list string :=
  match s with
  | "" => ("", [])
  | String c s' =>
      let '(p, ps) := py_split sep s' in
      if decide (c = sep) then ("", p :: ps) else (String c p, ps)
  end.

(** [s.split(sep, 1)], for a one-character [sep]: the text before the
    first [sep] and, when there is a [sep], the text after it. *)
Fixpoint py_split1 (sep : ascii) (s : string) : string * option string :=
  match s with
  | "" => ("", None)
  | String c s' =>
      if decide (c = sep) then ("", Some s')
      else let '(p, r) := py_split1 sep s' in (String c p, r)
  end.

(** What the extensions ask of the host: [os.getenv], [os.path.expanduser],
    [os.path.exists], [os.path.isfile]. *)
Record Host := {
  getenv : string -> option string;
  expanduser : string -> string;
  path_exists : string -> bool;
  path_isfile : string -> bool;
}.

Section Extensions.
Context {Container : Type}.

(** The dagger calls the extensions make on a container:
    [container.host().directory(p)], [container.host().file(p)],
    [with_mounted_directory], [with_mounted_file], [with_env_variable]. *)
Record Sdk := {
  Directory : Type;
  File : Type;
  host_directory : Container -> string -> Directory;
  host_file : Container -> string -> File;
  with_mounted_directory : string -> Directory -> Container -> Container;
  with_mounted_file : string -> File -> Container -> Container;
  with_env_variable : string -> string -> Container -> Container;
}.

Context (host : Host) (sdk : Sdk).

(** [core.py], class BasicExtension. *)
Definition BasicExtension : Extension Container :=
  {| get_name := "basic";
     check_args_for_activation := fun _ => true;
     get_dependencies := [];
     get_load_order_hints := [];
     validate_environment := fun _ => Ok tt;
     setup_container := fun container _ => Ok container |}.

(** [detach_extension.py], class DetachExtension. *)
Definition DetachExtension : Extension Container :=
  {| get_name := "detach";
     check_args_for_activation := default_check_args_for_activation "detach";
     get_dependencies := [];
     get_load_order_hints := [];
     validate_environment := fun args =>
       if truthy (args_get "detach" args)
          && truthy (args_get "interactive" args)
       then Raise (RuntimeError
                     "Cannot use both --detach and --interactive modes")
       else Ok tt;
     setup_container := fun container _ => Ok container |}.

(** [network not in ['bridge', 'none', 'host']]: only a string equals a
    string. *)
Definition network_mode_known (network : Value) : bool :=
  match network with
  | VStr s =>
      bool_decide (s = "bridge") || bool_decide (s = "none")
      || bool_decide (s = "host")
  | _ => false
  end.

(** [network_extension.py], class NetworkExtension. [format] is Python's
    rendering of a value inside an f-string. In [setup_container] every
    branch after the first test is [pass]. *)
Definition NetworkExtension (format : Value -> string)
  : Extension Container :=
  {| get_name := "network";
     check_args_for_activation := default_check_args_for_activation "network";
     get_dependencies := [];
     get_load_order_hints := [];
     validate_environment := fun args =>
       let network := args_get "network" args in
       if truthy network && negb (network_mode_known network)
       then Raise (RuntimeError
                     ("Invalid network mode: " +:+ format network
                      +:+ ". Must be one of: bridge, none, host"))
       else Ok tt;
     setup_container := fun container args =>
       let network := args_get "network" args in
       if negb (truthy network) then Ok container
       else Ok container |}.

(** [home_extension.py], class HomeExtension. *)
Definition HomeExtension : Extension Container :=
  {| get_name := "home";
     check_args_for_activation := default_check_args_for_activation "home";
     get_dependencies := ["user"];
     get_load_order_hints := ["user"];
     validate_environment := fun _ =>
       let home_dir := expanduser host "~" in
       if negb (path_exists host home_dir)
       then Raise (RuntimeError
                     ("Home directory does not exist: " +:+ home_dir))
       else Ok tt;
     setup_container := fun container _ =>
       let home_dir := expanduser host "~" in
       let host_home := host_directory sdk container home_dir in
       Ok (with_mounted_directory sdk home_dir host_home container) |}.

(** [env_extension.py], the body of the loop of [setup_container] for one
    entry. [name, value = env_var.split('=', 1)] raises [ValueError] when
    the split has a single part. *)
Definition env_entry (env_var : string) (container : Container)
  : outcome Container :=
  if py_contains "="%char env_var then
    match py_split1 "="%char env_var with
    | (name, Some value) =>
        Ok (with_env_variable sdk name value container)
    | (_, None) =>
        Raise (ValueError "not enough values to unpack (expected 2, got 1)")
    end
  else
    let value := default "" (getenv host env_var) in
    Ok (with_env_variable sdk env_var value container).

(** [env_extension.py], [setup_container] for [args] whose ['env'] entry is
    the list [env_vars], as argparse's [append] action stores it. An empty
    list returns at [if not env_vars]. *)
Definition env_setup (env_vars : list string) (container : Container)
  : outcome Container :=
  if negb (truthy (VList env_vars)) then Ok container
  else for_each env_entry env_vars container.

(** [volume_extension.py], [validate_environment] for [args] whose
    ['volume'] entry is the list [volumes]. *)
Definition volume_validate (volumes : list string) : outcome unit :=
  if negb (truthy (VList volumes)) then Ok tt
  else
    for_each
      (fun volume_spec _ =>
         let parts := py_split ":"%char volume_spec in
         let host_path := parts.1 in
         let host_path := expanduser host host_path in
         if negb (path_exists host host_path)
         then Raise (RuntimeError
                       ("Volume source path does not exist: " +:+ host_path))
         else Ok tt)
      volumes tt.

(** The container path of one volume:
    [parts[1] if len(parts) > 1 and parts[1] else host_path]. *)
Definition volume_container_path (parts : string * list string)
    (host_path : string) : string :=
  match parts.2 with
  | p1 :: _ => if truthy (VStr p1) then p1 else host_path
  | [] => host_path
  end.

(** [volume_extension.py], the body of the loop of [setup_container]. *)
Definition volume_mount (volume_spec : string) (container : Container)
  : Container :=
  let parts := py_split ":"%char volume_spec in
  let host_path := expanduser host parts.1 in
  let container_path := volume_container_path parts host_path in
  if path_isfile host host_path then
    let host_file := host_file sdk container host_path in
    with_mounted_file sdk container_path host_file container
  else
    let host_dir := host_directory sdk container host_path in
    with_mounted_directory sdk container_path host_dir container.

(** [volume_extension.py], [setup_container] for [args] whose ['volume']
    entry is the list [volumes]. *)
Definition volume_setup (volumes : list string) (container : Container)
  : Container :=
  if negb (truthy (VList volumes)) then container
  else fold_left (fun c volume_spec => volume_mount volume_spec c)
         volumes container.

Context (backend : Backend Container).

(** [core.py], [main]: only [BasicExtension] is registered, a failed
    validation is not caught, and the function returns [None]. *)
Definition core_main (args_dict : Args) : M unit :=
  do_register BasicExtension;;
  core ← get_core;
  active ← lift (get_active_extensions (extensions core) args_dict);
  set_active active;;
  print (LActive (get_name <$> active));;
  core ← get_core;
  validate_all (active_extensions core) args_dict;;
  if truthy (args_get "dry_run" args_dict) then
    print LDryRun
  else
    build_and_run backend args_dict;;
    mret tt.

End Extensions.

Arguments Sdk : clear implicits.

(** * Specification vocabulary *)

Section Vocabulary.
Context {Container : Type}.
Implicit Types (extensions items active : dict (Extension Container)).

(** A registry or active set is a dictionary: its keys are distinct, and
    every extension is stored under its own name. *)
Definition wf_dict (d : dict (Extension Container)) : Prop :=
  NoDup (keys d) ∧ ∀ k e, (k, e) ∈ d → get_name e = k.

(** [n] is registered and its activation predicate accepts [args]. *)
Definition seeded extensions (args : Args) (n : string) : Prop :=
  ∃ e, dict_get n extensions = Some e ∧
       check_args_for_activation e args = true.

(** [a] is registered and names the registered extension [b] among its
    dependencies. *)
Definition depends_on extensions (a b : string) : Prop :=
  ∃ e, dict_get a extensions = Some e ∧
       b ∈ get_dependencies e ∧ b ∈ keys extensions.

(** [n] is activated by its own predicate or reached from such an
    extension through a chain of registered dependency names. *)
Definition reachable extensions (args : Args) (n : string) : Prop :=
  ∃ s, seeded extensions args s ∧ rtc (depends_on extensions) s n.

(** No active extension has a registered dependency outside [active]. *)
Definition closed extensions active : Prop :=
  ∀ n e, dict_get n active = Some e →
    ∀ d, d ∈ get_dependencies e → d ∈ keys extensions → d ∈ keys active.

(** [E] is in [items] and hints that [P], also in [items], must come
    before it. *)
Definition hinted items (E P : string) : Prop :=
  ∃ e, dict_get E items = Some e ∧
       P ∈ get_load_order_hints e ∧ P ∈ keys items.

Definition acyclic items : Prop := ∀ n, ¬ tc (hinted items) n n.

(** [a] occurs at a smaller index than [b]. *)
Definition strictly_before (a b : string) (l : list string) : Prop :=
  ∃ i j, l !! i = Some a ∧ l !! j = Some b ∧ (i < j)%nat.

(** Every call a computation makes satisfies [P], whatever the core
    object it starts from. *)
Definition emits (P : Event Container → Prop) {A} (m : M A) : Prop :=
  ∀ s, Forall P (m s).1.1.

(** Calls that reach neither an extension's mutation nor the backend. *)
Definition report_only (ev : Event Container) : Prop :=
  match ev with
  | EvValidate _ | EvPrint _ => True
  | _ => False
  end.

Definition not_validate (ev : Event Container) : Prop :=
  match ev with
  | EvValidate _ => False
  | _ => True
  end.


(** [self.active_extensions = l] *)
Definition with_active (s : Core Container) (l : list (Extension Container))
  : Core Container :=
  {| extensions := extensions s; active_extensions := l |}.

(** The registry after [for ext in extensions: core.register_extension(ext)]. *)
Definition registered (builtin : list (Extension Container))
    (d : dict (Extension Container)) : dict (Extension Container) :=
  fold_left (fun d ext => register_extension ext d) builtin d.

(** The lines [print_order] prints, numbered from [i]. *)
Fixpoint order_lines (i : nat) (names : list string)
  : list (Event Container) :=
  match names with
  | [] => []
  | n :: names' => EvPrint (LOrderItem i n) :: order_lines (S i) names'
  end.

(** The optional [Command: ...] line of a dry run. *)
Definition command_line (args : Args) : list (Event Container) :=
  if truthy (args_get "command" args)
  then [EvPrint (LCommand (args_get "command" args))] else [].


(** Every entry of [active] is the registered extension of its key and is
    reachable from the seed. *)
Definition sound extensions (args : Args) active : Prop :=
  ∀ n e, (n, e) ∈ active →
    dict_get n extensions = Some e ∧ reachable extensions args n.

(** The scheduler's state before the first call of [visit]. *)
Definition sort_init : SortState Container :=
  {| visited := ∅; temp_visited := ∅; result := [] |}.

(** Two scheduler states with the same current path. *)
Definition same_temp : relation (SortState Container) :=
  fun s s' => temp_visited s' = temp_visited s.

(** What holds of the scheduler's state between calls of [visit]: the
    names placed are distinct, they are the visited names of [items], each
    placed extension is the one [items] holds, no visited name is on the
    current path, and every active hinted predecessor of a placed
    extension is placed before it. *)
Record sort_inv items (st : SortState Container) : Prop := {
  inv_nodup : NoDup (get_name <$> result st);
  inv_visited :
    ∀ n, n ∈ get_name <$> result st ↔ n ∈ visited st ∧ n ∈ keys items;
  inv_items : ∀ e, e ∈ result st → dict_get (get_name e) items = Some e;
  inv_disjoint : visited st ## temp_visited st;
  inv_order :
    ∀ i e p, result st !! i = Some e →
      p ∈ get_load_order_hints e → p ∈ keys items →
      ∃ j, (j < i)%nat ∧ (get_name <$> result st) !! j = Some p;
}.

(** What a returning call [visit name] establishes. *)
Definition visit_post items (name : string) (st st' : SortState Container)
  : Prop :=
  sort_inv items st' ∧ temp_visited st' = temp_visited st ∧
  visited st ⊆ visited st' ∧ name ∈ visited st'.

(** The core object of an entry point once the order is resolved. *)
Definition resolved_core (builtin : list (Extension Container))
    (s : Core Container) (order : list (Extension Container))
  : Core Container :=
  {| extensions := registered builtin (extensions s);
     active_extensions := order |}.

End Vocabulary.

(** * Vocabulary for the pipeline and the built-in extensions *)

Section PipelineVocabulary.
Context {Container : Type}.

(** The validation loop and the mutation fold without their calls. *)
Definition validated (exts : list (Extension Container)) (args : Args)
  : outcome unit :=
  for_each (fun ext _ => validate_environment ext args) exts tt.

Definition mutated (exts : list (Extension Container)) (c : Container)
    (args : Args) : outcome Container :=
  for_each (fun ext c => setup_container ext c args) exts c.

(** The calls the validation loop makes: it stops after the first
    validation that does not return. *)
Fixpoint validate_events (exts : list (Extension Container)) (args : Args)
  : list (Event Container) :=
  match exts with
  | [] => []
  | ext :: exts' =>
      EvValidate (get_name ext)
      :: match validate_environment ext args with
         | Ok _ => validate_events exts' args
         | _ => []
         end
  end.

(** The calls the mutation fold makes. *)
Fixpoint setup_events (exts : list (Extension Container)) (c : Container)
    (args : Args) : list (Event Container) :=
  match exts with
  | [] => []
  | ext :: exts' =>
      EvSetup (get_name ext) c
      :: match setup_container ext c args with
         | Ok c' => setup_events exts' c' args
         | _ => []
         end
  end.

(** The command [run] and [build_and_run] hand to the backend. *)
Definition run_command (args : Args) : Value :=
  if truthy (args_get "command" args) then args_get "command" args
  else VList ["/bin/bash"; "-c"; "echo 'No command specified'"].

Definition build_command (args : Args) : Value :=
  if truthy (args_get "command" args) then args_get "command" args
  else VList ["/bin/bash"].

(** How [run] ends, as a function of what its collaborators return. *)
Definition run_result (backend : Backend Container) (args : Args)
    (extensions : dict (Extension Container)) : outcome string :=
  order ← get_active_extensions extensions args;
  validated order args;;
  connect backend;;
  image ← args_item "image" args;
  final ← mutated order (from_ backend image) args;
  stdout backend (with_exec backend (run_command args) final).

(** How [build_and_run] ends. *)
Definition build_result (backend : Backend Container) (args : Args)
    (active : list (Extension Container)) : outcome Container :=
  connect backend;;
  image ← args_item "image" args;
  final ← mutated active (from_ backend image) args;
  sync backend (with_exec backend (build_command args) final).

(** What happens inside the connection: the base container is built from
    [args['image']], the mutations are folded over it, and [exec] runs on
    the result. *)
Definition session_result {X} (backend : Backend Container)
    (exec : Container → outcome X) (active : list (Extension Container))
    (args : Args) : outcome X :=
  image ← args_item "image" args;
  final ← mutated active (from_ backend image) args;
  exec final.

Definition session_events (backend : Backend Container)
    (exec_events : Container → list (Event Container))
    (active : list (Extension Container)) (args : Args)
  : list (Event Container) :=
  match args_item "image" args with
  | Ok image =>
      EvFrom image
      :: setup_events active (from_ backend image) args
      ++ match mutated active (from_ backend image) args with
         | Ok final => exec_events final
         | _ => []
         end
  | _ => []
  end.

(** The calls of an [async with] block whose body makes the calls [events]
    and ends as [o]. *)
Definition connection_events {X} (backend : Backend Container)
    (events : list (Event Container)) (o : outcome X)
  : list (Event Container) :=
  EvConnect
  :: match connect backend with
     | Ok _ =>
         events ++ match o with Diverge => [] | _ => [EvDisconnect] end
     | _ => []
     end.

(** The calls [build_and_run] makes. *)
Definition build_events (backend : Backend Container) (args : Args)
    (active : list (Extension Container)) : list (Event Container) :=
  connection_events backend
    (session_events backend
       (fun final =>
          [EvWithExec (build_command args) final;
           EvSync (with_exec backend (build_command args) final)])
       active args)
    (session_result backend
       (fun final => sync backend (with_exec backend (build_command args) final))
       active args).

(** The calls [run] makes. *)
Definition run_events (backend : Backend Container) (args : Args)
    (extensions : dict (Extension Container)) : list (Event Container) :=
  match get_active_extensions extensions args with
  | Ok order =>
      validate_events order args
      ++ match validated order args with
         | Ok _ =>
             connection_events backend
               (session_events backend
                  (fun final =>
                     [EvWithExec (run_command args) final;
                      EvStdout (with_exec backend (run_command args) final)])
                  order args)
               (session_result backend
                  (fun final =>
                     stdout backend
                       (with_exec backend (run_command args) final))
                  order args)
         | _ => []
         end
  | _ => []
  end.

(** Options as argparse stores them: the image, when present, is a string
    and the command, when present, a list of tokens. The dagger SDK checks
    the types of what it is handed, so the backend is only modelled on
    these. *)
Definition typed_args (args : Args) : bool :=
  match dict_get "image" args with
  | Some (VStr _) | None => true
  | Some _ => false
  end
  && match dict_get "command" args with
     | Some (VList _) | None => true
     | Some _ => false
     end.

(** An extension whose mutation hands back the container it was given. *)
Definition is_noop (ext : Extension Container) (args : Args) : Prop :=
  ∀ c, setup_container ext c args = Ok c.

(** A computation that lets no exception escape. *)
Definition never_raises {A} (m : @M Container A) : Prop :=
  ∀ s e, (m s).2 ≠ Raise e.

(** The name, activation rule, dependencies and hints an extension class
    declares; [always] marks an overridden [check_args_for_activation]
    that returns [True]. *)
Definition declares (ext : Extension Container)
    (d : string * bool * list string * list string) : Prop :=
  let '(name, always, deps, hints) := d in
  get_name ext = name ∧
  (∀ args, check_args_for_activation ext args
           = if always then true
             else default_check_args_for_activation name args) ∧
  get_dependencies ext = deps ∧
  get_load_order_hints ext = hints.

(** Mounting the host path [host_path] at [container_path]: as a file when
    the host path is a file, as a directory otherwise. *)
Definition mount_at (host : Host) (sdk : Sdk Container)
    (container_path host_path : string) (c : Container) : Container :=
  if path_isfile host host_path
  then with_mounted_file sdk container_path (host_file sdk c host_path) c
  else with_mounted_directory sdk container_path
         (host_directory sdk c host_path) c.

(** The entry [NAME=VALUE] for a binding. *)
Definition env_assignment (binding : string * string) : string :=
  binding.1 +:+ "=" +:+ binding.2.

(** The eight classes [cli.py] registers, in its order. *)
Definition cli_table : list (string * bool * list string * list string) :=
  [("basic", true, [], []);
   ("user", false, [], []);
   ("volume", false, [], ["user"]);
   ("home", false, ["user"], ["user"]);
   ("x11", false, [], ["user"]);
   ("env", false, [], []);
   ("network", false, [], []);
   ("detach", false, [], [])].

(** A list of extension objects built from those classes. *)
Definition cli_builtin (exts : list (Extension Container)) : Prop :=
  Forall2 declares exts cli_table.

End PipelineVocabulary.

(** * Sample extensions

    The declarative part of the built-in extensions ([BasicExtension],
    [UserExtension], [HomeExtension], [VolumeExtension]) and of the test
    suite's [MockExtension]. A container is the log of what was applied to
    it; validation against the host is taken to succeed unless stated. *)

Module Samples.

Definition Log := list string.

Definition extension (name : string) (always : bool)
    (dependencies load_order_hints : list string) : Extension Log :=
  {| get_name := name;
     check_args_for_activation :=
       if always then fun _ => true
       else default_check_args_for_activation name;
     get_dependencies := dependencies;
     get_load_order_hints := load_order_hints;
     validate_environment := fun _ => Ok tt;
     setup_container := fun c _ => Ok (c ++ [name]) |}.

Definition basic := extension "basic" true [] [].
Definition user := extension "user" false [] [].
Definition volume := extension "volume" false [] ["user"].
Definition home := extension "home" false ["user"] ["user"].

(** [MockExtension("a", load_order_hints={"b"})] and its mirror image. *)
Definition mock_a := extension "a" false [] ["b"].
Definition mock_b := extension "b" false [] ["a"].

(** A second extension that also calls itself ["a"]. *)
Definition mock_a' := extension "a" false [] [].

(** An extension whose validation fails. *)
Definition failing (name : string) : Extension Log :=
  {| get_name := name;
     check_args_for_activation := default_check_args_for_activation name;
     get_dependencies := [];
     get_load_order_hints := [];
     validate_environment :=
       fun _ => Raise (RuntimeError "Home directory does not exist");
     setup_container := fun c _ => Ok (c ++ [name]) |}.

Definition registry_of (l : list (Extension Log)) : dict (Extension Log) :=
  fold_left (fun d ext => register_extension ext d) l [].

(** The registry of [main.py]. *)
Definition builtin : list (Extension Log) := [basic; user; volume; home].
Definition registry : dict (Extension Log) := registry_of builtin.

(** The active set for [--home], and one with a cycle of hints. *)
Definition active_home : dict (Extension Log) :=
  [("basic", basic); ("home", home); ("user", user)].
Definition active_cycle : dict (Extension Log) :=
  [("b", mock_b); ("a", mock_a)].

(** The core object of [cli.py] after registration, an invocation with
    [--home], one with no option and no command token, and a dry run. *)
Definition core : Core Log :=
  {| extensions := registry; active_extensions := [] |}.
Definition args_home : Args :=
  [("image", VStr "ubuntu"); ("command", VList ["ls"]);
   ("dry_run", VBool false); ("home", VBool true)].
Definition args_cycle : Args :=
  [("image", VStr "ubuntu:20.04"); ("a", VBool true); ("b", VBool true)].
Definition args_plain : Args :=
  [("image", VStr "ubuntu"); ("command", VList []);
   ("dry_run", VBool false)].
Definition args_dry : Args :=
  [("image", VStr "ubuntu"); ("command", VList []);
   ("dry_run", VBool true); ("home", VBool true)].

(** A core object in which ["a"] and ["b"] are registered. *)
Definition core_ab : Core Log :=
  {| extensions := registry_of [mock_a; mock_b]; active_extensions := [] |}.

Definition home_rank (n : string) : nat :=
  if decide (n = "home") then 1 else 0.

(** A host with one user, and a dagger SDK that logs what it is asked. *)
Definition sample_host : Host :=
  {| getenv := fun n => if decide (n = "TERM") then Some "xterm" else None;
     expanduser := fun p =>
       match p with
       | String "~" rest => "/home/u" +:+ rest
       | _ => p
       end;
     path_exists := fun p =>
       bool_decide (p ∈ ["/home/u"; "/tmp"; "/etc/hosts"]);
     path_isfile := fun p => bool_decide (p = "/etc/hosts") |}.

Definition sample_sdk : Sdk Log :=
  {| Directory := string;
     File := string;
     host_directory := fun _ p => p;
     host_file := fun _ p => p;
     with_mounted_directory := fun cp d c =>
       c ++ ["dir " +:+ d +:+ " at " +:+ cp];
     with_mounted_file := fun cp f c => c ++ ["file " +:+ f +:+ " at " +:+ cp];
     with_env_variable := fun n v c => c ++ ["env " +:+ n +:+ "=" +:+ v] |}.

Definition sample_format (v : Value) : string :=
  match v with
  | VStr s => s
  | VNone => "None"
  | VBool b => if b then "True" else "False"
  | VList _ => "[...]"
  end.

(** The eight extension objects of [cli.py]; the four classes that are not
    modelled in full are given by what they declare. *)
Definition cli_extensions : list (Extension Log) :=
  [BasicExtension; user; volume; HomeExtension sample_host sample_sdk;
   extension "x11" false [] ["user"]; extension "env" false [] [];
   NetworkExtension sample_format; DetachExtension].


(** Core objects and option sets for the failure cases. *)
Definition core_cli : Core Log :=
  {| extensions := registered cli_extensions []; active_extensions := [] |}.
Definition args_noimage : Args := [("home", VBool true)].
Definition args_x : Args := [("image", VStr "ubuntu"); ("x", VBool true)].
Definition args_conflict : Args :=
  [("image", VStr "ubuntu"); ("detach", VBool true);
   ("interactive", VBool true)].
Definition args_mesh : Args :=
  [("image", VStr "ubuntu"); ("network", VStr "mesh")].

(** An extension whose mutation fails. *)
Definition broken (name : string) : Extension Log :=
  {| get_name := name;
     check_args_for_activation := default_check_args_for_activation name;
     get_dependencies := [];
     get_load_order_hints := [];
     validate_environment := fun _ => Ok tt;
     setup_container := fun _ _ => Raise (RuntimeError "mount rejected") |}.

(** A host on which the home directory is missing. *)
Definition homeless_host : Host :=
  {| getenv := fun _ => None;
     expanduser := fun p => p;
     path_exists := fun _ => false;
     path_isfile := fun _ => false |}.

(** A backend whose engine cannot be reached. *)
Definition backend_down : Backend Log :=
  {| connect := Raise (RuntimeError "connection refused");
     from_ := fun image => ["from"];
     with_exec := fun argv c => c ++ ["exec"];
     stdout := fun c => Ok (String.concat "," c);
     sync := fun c => Ok c |}.

Definition backend : Backend Log :=
  {| connect := Ok tt;
     from_ := fun image => ["from"];
     with_exec := fun argv c => c ++ ["exec"];
     stdout := fun c => Ok (String.concat "," c);
     sync := fun c => Ok c |}.

End Samples.

(** * Properties *)

(** ** Dictionaries *)

Section DictFacts.
Context {V : Type}.
Implicit Types (d : dict V) (k : string) (v : V).

Lemma dict_get_None d k : dict_get k d = None ↔ k ∉ keys d.
Proof.
  unfold keys. induction d as [|[k' v'] d IH]; simpl.
  - split; [set_solver | done].
  - case_decide; subst.
    + split; [done | set_solver].
    + rewrite IH. set_solver.
Qed.

Lemma dict_mem_keys d k : dict_mem k d = true ↔ k ∈ keys d.
Proof.
  unfold dict_mem. destruct (dict_get k d) eqn:E.
  - split; [|done]. intros _.
    destruct (decide (k ∈ keys d)) as [|Hn]; [done|].
    apply dict_get_None in Hn. congruence.
  - split; [done|]. intros Hin. by apply dict_get_None in E.
Qed.

Lemma dict_mem_false d k : dict_mem k d = false ↔ k ∉ keys d.
Proof.
  rewrite <- dict_mem_keys. destruct (dict_mem k d); naive_solver.
Qed.

Lemma dict_get_elem d k v : dict_get k d = Some v → (k, v) ∈ d.
Proof.
  induction d as [|[k' v'] d IH]; simpl; [done|].
  case_decide; subst.
  - intros [= ->]. set_solver.
  - intros H'. apply elem_of_cons. right. auto.
Qed.

Lemma dict_get_key d k v : dict_get k d = Some v → k ∈ keys d.
Proof.
  intros H. apply dict_mem_keys. unfold dict_mem. by rewrite H.
Qed.

Lemma elem_dict_get d k v : NoDup (keys d) → (k, v) ∈ d → dict_get k d = Some v.
Proof.
  unfold keys. induction d as [|[k' v'] d IH]; simpl; [set_solver|].
  rewrite NoDup_cons. intros [Hk Hnd] Hin.
  apply elem_of_cons in Hin as [[= -> ->]|Hin].
  - by rewrite decide_True.
  - rewrite decide_False; [auto|].
    intros ->. apply Hk. apply list_elem_of_fmap. by exists (k, v).
Qed.

Lemma dict_get_set_eq d k v : dict_get k (dict_set k v d) = Some v.
Proof.
  induction d as [|[k' v'] d IH]; simpl.
  - by rewrite decide_True.
  - case_decide; subst; simpl.
    + by rewrite decide_True.
    + by rewrite decide_False.
Qed.

Lemma dict_get_set_ne d k k' v :
  k ≠ k' → dict_get k' (dict_set k v d) = dict_get k' d.
Proof.
  intros Hne. induction d as [|[k0 v0] d IH]; simpl.
  - by rewrite decide_False.
  - case_decide; subst; simpl.
    + by rewrite !decide_False.
    + by rewrite IH.
Qed.

(** Assigning to an absent key appends it. *)
Lemma dict_set_new d k v : k ∉ keys d → dict_set k v d = d ++ [(k, v)].
Proof.
  unfold keys. induction d as [|[k0 v0] d IH]; simpl; [done|].
  intros Hn. rewrite decide_False by set_solver.
  rewrite IH; [done | set_solver].
Qed.

(** Assigning to a present key leaves the key order alone. *)
Lemma dict_set_keys_old d k v : k ∈ keys d → keys (dict_set k v d) = keys d.
Proof.
  unfold keys. induction d as [|[k0 v0] d IH]; simpl; [set_solver|].
  intros Hin. case_decide; subst; simpl; [done|].
  f_equal. apply IH. set_solver.
Qed.

Lemma dict_set_keys d k v :
  keys (dict_set k v d) = if decide (k ∈ keys d) then keys d else keys d ++ [k].
Proof.
  case_decide.
  - by apply dict_set_keys_old.
  - rewrite dict_set_new by done. unfold keys. by rewrite fmap_app.
Qed.

Lemma dict_set_NoDup d k v : NoDup (keys d) → NoDup (keys (dict_set k v d)).
Proof.
  intros Hnd. rewrite dict_set_keys. case_decide; [done|].
  apply NoDup_app. split_and!; [done | set_solver | apply NoDup_singleton].
Qed.

Lemma dict_set_elem d k v k' v' :
  (k', v') ∈ dict_set k v d → (k', v') = (k, v) ∨ (k', v') ∈ d.
Proof.
  induction d as [|[k0 v0] d IH]; simpl.
  - set_solver.
  - case_decide; subst; set_solver.
Qed.

End DictFacts.

(** ** The resolver *)

Section ResolverFacts.
Context {Container : Type}.
Context (extensions : dict (Extension Container)) (args : Args).
Context (Hnd : NoDup (keys extensions)).
Implicit Types (active : dict (Extension Container)).

Lemma sound_keys active : sound extensions args active → keys active ⊆ keys extensions.
Proof.
  intros Hs n Hn. apply list_elem_of_fmap in Hn as [[k e] [-> Hin]].
  apply Hs in Hin as [Hg _]. by apply dict_get_key in Hg.
Qed.

Lemma sound_length active :
  NoDup (keys active) → sound extensions args active →
  (length active ≤ length extensions)%nat.
Proof.
  intros Hn Hs.
  assert (length (keys active) ≤ length (keys extensions))%nat as Hle.
  { apply submseteq_length, NoDup_submseteq; [done|].
    intros x Hx. by apply (sound_keys active Hs). }
  unfold keys in Hle. by rewrite !length_fmap in Hle.
Qed.

Lemma seed_fold_get (l acc : dict (Extension Container)) n :
  NoDup (keys l) →
  dict_get n
    (fold_left
       (fun active '(name, ext) =>
          if check_args_for_activation ext args
          then dict_set name ext active else active) l acc)
  = match dict_get n l with
    | Some e =>
        if check_args_for_activation e args then Some e else dict_get n acc
    | None => dict_get n acc
    end.
Proof.
  revert acc. induction l as [|[k e] l IH]; intros acc Hl; simpl; [done|].
  unfold keys in Hl. simpl in Hl. apply NoDup_cons in Hl as [Hk Hl].
  rewrite IH by done. case_decide; subst.
  - assert (dict_get n l = None) as -> by by apply dict_get_None.
    destruct (check_args_for_activation e args); [|done].
    apply dict_get_set_eq.
  - destruct (dict_get n l) as [e'|];
      destruct (check_args_for_activation e args); try done;
      try (by rewrite dict_get_set_ne);
      destruct (check_args_for_activation e' args); try done;
      by rewrite dict_get_set_ne.
Qed.

Lemma seed_fold_NoDup (l acc : dict (Extension Container)) :
  NoDup (keys acc) →
  NoDup (keys
    (fold_left
       (fun active '(name, ext) =>
          if check_args_for_activation ext args
          then dict_set name ext active else active) l acc)).
Proof.
  revert acc. induction l as [|[k e] l IH]; intros acc Hacc; simpl; [done|].
  apply IH. destruct (check_args_for_activation e args); [|done].
  by apply dict_set_NoDup.
Qed.

Lemma initially_requested_get n :
  dict_get n (initially_requested extensions args)
  = match dict_get n extensions with
    | Some e => if check_args_for_activation e args then Some e else None
    | None => None
    end.
Proof. unfold initially_requested. by rewrite seed_fold_get. Qed.

Lemma initially_requested_NoDup :
  NoDup (keys (initially_requested extensions args)).
Proof. apply seed_fold_NoDup. constructor. Qed.

Lemma initially_requested_sound : sound extensions args (initially_requested extensions args).
Proof.
  intros n e Hin. apply elem_dict_get in Hin; [|apply initially_requested_NoDup].
  rewrite initially_requested_get in Hin.
  destruct (dict_get n extensions) as [e'|] eqn:Hg; [|done].
  destruct (check_args_for_activation e' args) eqn:Hp; [|done].
  injection Hin as ->. split; [done|].
  exists n. split; [by exists e | done].
Qed.

Lemma add_dependencies_spec a ext deps active ch :
  dict_get a extensions = Some ext →
  reachable extensions args a →
  (∀ d, d ∈ deps → d ∈ get_dependencies ext) →
  NoDup (keys active) → sound extensions args active →
  ∃ suf,
    (add_dependencies extensions deps (active, ch)).1 = active ++ suf ∧
    NoDup (keys (active ++ suf)) ∧ sound extensions args (active ++ suf) ∧
    ((add_dependencies extensions deps (active, ch)).2 = false →
       ch = false ∧ suf = [] ∧
       ∀ d, d ∈ deps → d ∈ keys extensions → d ∈ keys active) ∧
    ((add_dependencies extensions deps (active, ch)).2 = true →
       ch = true ∨ suf ≠ []).
Proof.
  intros Ha Hr. revert active ch.
  induction deps as [|dep deps IH]; intros active ch Hsub Hn Hs; simpl.
  - exists []. rewrite app_nil_r. split_and!; try done.
    + intros ->. split_and!; try done. intros d Hd. by apply elem_of_nil in Hd.
    + intros ->. by left.
  - assert (∀ d, d ∈ deps → d ∈ get_dependencies ext) as Hsub'.
    { intros d Hd. apply Hsub. by apply elem_of_cons; right. }
    destruct (dict_mem dep active) eqn:Hm.
    + destruct (IH active ch Hsub' Hn Hs) as (suf & E1 & N1 & S1 & F1 & T1).
      exists suf. split_and!; try done.
      intros Hf. destruct (F1 Hf) as (-> & -> & Hcl). split_and!; try done.
      intros d Hd Hk. apply elem_of_cons in Hd as [->|Hd]; [|by apply Hcl].
      by apply dict_mem_keys.
    + apply dict_mem_false in Hm.
      destruct (dict_get dep extensions) as [e|] eqn:Hg.
      * rewrite dict_set_new by done.
        assert (NoDup (keys (active ++ [(dep, e)]))) as Hn1.
        { rewrite <- dict_set_new by done. by apply dict_set_NoDup. }
        assert (sound extensions args (active ++ [(dep, e)])) as Hs1.
        { intros n e' Hin. apply elem_of_app in Hin as [Hin|Hin]; [by apply Hs|].
          apply list_elem_of_singleton in Hin. injection Hin as -> ->.
          split; [done|]. destruct Hr as (s & Hseed & Hpath).
          exists s. split; [done|]. eapply rtc_r; [done|].
          exists ext. split_and!; [done | | by eapply dict_get_key].
          apply Hsub. by apply elem_of_cons; left. }
        destruct (IH _ true Hsub' Hn1 Hs1) as (suf & E1 & N1 & S1 & F1 & T1).
        exists ((dep, e) :: suf).
        replace (active ++ (dep, e) :: suf)
          with ((active ++ [(dep, e)]) ++ suf) by by rewrite <- app_assoc.
        split_and!; try done.
        -- intros Hf. by destruct (F1 Hf) as (? & _).
        -- intros _. by right.
      * destruct (IH active ch Hsub' Hn Hs) as (suf & E1 & N1 & S1 & F1 & T1).
        exists suf. split_and!; try done.
        intros Hf. destruct (F1 Hf) as (-> & -> & Hcl). split_and!; try done.
        intros d Hd Hk. apply elem_of_cons in Hd as [->|Hd]; [|by apply Hcl].
        apply dict_get_None in Hg. done.
Qed.

Lemma scan_fold_spec (l : dict (Extension Container)) active ch :
  sound extensions args l → NoDup (keys active) → sound extensions args active →
  ∃ suf,
    let r := fold_left
               (fun st '(_, ext) =>
                  add_dependencies extensions (get_dependencies ext) st)
               l (active, ch) in
    r.1 = active ++ suf ∧ NoDup (keys (active ++ suf)) ∧
    sound extensions args (active ++ suf) ∧
    (r.2 = false →
       ch = false ∧ suf = [] ∧
       ∀ n e, (n, e) ∈ l → ∀ d, d ∈ get_dependencies e →
         d ∈ keys extensions → d ∈ keys active) ∧
    (r.2 = true → ch = true ∨ suf ≠ []).
Proof.
  revert active ch. induction l as [|[n e] l IH]; intros active ch Hl Hn Hs.
  - exists []. simpl. rewrite app_nil_r. split_and!; try done.
    + intros ->. split_and!; try done. intros ?? Hin. by apply elem_of_nil in Hin.
    + intros ->. by left.
  - assert (sound extensions args l) as Hl'.
    { intros ?? Hin. apply Hl. by apply elem_of_cons; right. }
    destruct (Hl n e) as [Hg Hr]; [by apply elem_of_cons; left|].
    destruct (add_dependencies_spec n e (get_dependencies e) active ch
                Hg Hr (fun _ H => H) Hn Hs) as (suf1 & E1 & N1 & S1 & F1 & T1).
    cbn [fold_left].
    destruct (add_dependencies extensions (get_dependencies e) (active, ch))
      as [act1 ch1]. simpl in E1, F1, T1. subst act1.
    destruct (IH _ ch1 Hl' N1 S1) as (suf2 & E2 & N2 & S2 & F2 & T2).
    exists (suf1 ++ suf2). rewrite app_assoc. split_and!; try done.
    + intros Hf. destruct (F2 Hf) as (-> & -> & Hcl).
      destruct (F1 eq_refl) as (-> & -> & Hcl1). split_and!; try done.
      intros n' e' Hin d Hd Hk. apply elem_of_cons in Hin as [[= -> ->]|Hin].
      * by apply Hcl1.
      * specialize (Hcl n' e' Hin d Hd Hk). by rewrite app_nil_r in Hcl.
    + intros Ht. destruct (T2 Ht) as [->|Hne].
      * destruct (T1 eq_refl) as [->|Hne]; [by left|].
        right. by destruct suf1.
      * right. by destruct suf1, suf2.
Qed.

Lemma closed_of_elems active :
  NoDup (keys active) →
  (∀ n e, (n, e) ∈ active → ∀ d, d ∈ get_dependencies e →
     d ∈ keys extensions → d ∈ keys active) →
  closed extensions active.
Proof. intros Hn H n e Hg. apply (H n e). by apply dict_get_elem. Qed.

Lemma expand_spec fuel active :
  NoDup (keys active) → sound extensions args active →
  (length extensions < fuel + length active)%nat →
  ∃ suf,
    expand fuel extensions active = Ok (active ++ suf) ∧
    NoDup (keys (active ++ suf)) ∧ sound extensions args (active ++ suf) ∧
    closed extensions (active ++ suf).
Proof.
  revert active. induction fuel as [|fuel IH]; intros active Hn Hs Hlen.
  - pose proof (sound_length active Hn Hs). simpl in Hlen. lia.
  - simpl. unfold scan.
    destruct (scan_fold_spec active active false Hs Hn Hs)
      as (suf1 & E1 & N1 & S1 & F1 & T1). simpl in *.
    destruct (fold_left _ active (active, false)) as [act1 ch1].
    simpl in *. subst act1. destruct ch1.
    + destruct (T1 eq_refl) as [?|Hne]; [done|].
      destruct (IH (active ++ suf1) N1 S1) as (suf2 & E2 & N2 & S2 & C2).
      { rewrite length_app. destruct suf1; [done|]. simpl. lia. }
      exists (suf1 ++ suf2). rewrite app_assoc. by split_and!.
    + destruct (F1 eq_refl) as (_ & -> & Hcl).
      exists []. split_and!; try done.
      rewrite app_nil_r. by apply closed_of_elems.
Qed.

(** The closure loop returns within the budget [resolve_active] gives it,
    and its result extends the seed, is sound extensions args and is closed. *)
Lemma resolve_active_spec :
  ∃ active,
    resolve_active extensions args = Ok active ∧
    NoDup (keys active) ∧ sound extensions args active ∧ closed extensions active ∧
    ∀ n e, dict_get n (initially_requested extensions args) = Some e →
           dict_get n active = Some e.
Proof.
  unfold resolve_active.
  destruct (expand_spec (S (length extensions))
              (initially_requested extensions args))
    as (suf & E & N & S' & C).
  - apply initially_requested_NoDup.
  - apply initially_requested_sound.
  - lia.
  - eexists. split_and!; try done.
    intros n e Hg. apply elem_dict_get; [done|].
    apply elem_of_app. left. by apply dict_get_elem.
Qed.

Lemma expand_mono fuel fuel' active r :
  expand fuel extensions active = Ok r → (fuel ≤ fuel')%nat →
  expand fuel' extensions active = Ok r.
Proof.
  revert fuel' active. induction fuel as [|fuel IH]; intros fuel' active;
    [done|].
  intros E Hle. destruct fuel' as [|fuel']; [lia|]. simpl in *.
  destruct (scan extensions active) as [act1 []]; [|done].
  apply IH; [done | lia].
Qed.

(** Any larger budget gives the same active set. *)
Lemma expand_fuel_irrelevant fuel :
  (length extensions < fuel)%nat →
  expand fuel extensions (initially_requested extensions args)
  = resolve_active extensions args.
Proof.
  intros Hf. destruct resolve_active_spec as (active & E & _).
  rewrite E. eapply expand_mono; [exact E | lia].
Qed.

End ResolverFacts.

(** ** Loops over outcomes *)

Section ForEach.
Context {A S : Type} (body : A → S → outcome S).

Lemma for_each_cons x l s :
  for_each body (x :: l) s
  = match body x s with
    | Ok s' => for_each body l s'
    | Raise e => Raise e
    | Diverge => Diverge
    end.
Proof. reflexivity. Qed.

(** A relation kept by every iteration that returns is kept by the loop. *)
Lemma for_each_Ok (R : relation S) `{!Reflexive R, !Transitive R} l s s' :
  (∀ x s s', x ∈ l → body x s = Ok s' → R s s') →
  for_each body l s = Ok s' → R s s'.
Proof.
  revert s. induction l as [|x l IH]; intros s Hstep.
  - intros [= ->]. reflexivity.
  - rewrite for_each_cons. destruct (body x s) as [s1| |] eqn:E; try done.
    intros Hl. transitivity s1.
    + eapply Hstep; [|done]. by apply elem_of_cons; left.
    + apply IH; [|done]. intros ???? . eapply Hstep. by apply elem_of_cons; right.
Qed.

(** A loop that does not return stopped in some iteration. *)
Lemma for_each_fail (R : relation S) `{!Reflexive R, !Transitive R} l s r :
  (∀ x s s', x ∈ l → body x s = Ok s' → R s s') →
  for_each body l s = r → (∀ s', r ≠ Ok s') →
  ∃ x s0, x ∈ l ∧ R s s0 ∧ body x s0 = r.
Proof.
  revert s. induction l as [|x l IH]; intros s Hstep.
  - simpl. intros <- Hr. by destruct (Hr s).
  - rewrite for_each_cons. destruct (body x s) as [s1| |] eqn:E.
    + intros Hl Hr. destruct (IH s1) as (y & s0 & Hy & HR & Hb); try done.
      { intros ????. eapply Hstep. by apply elem_of_cons; right. }
      exists y, s0. split_and!; [by apply elem_of_cons; right | | done].
      transitivity s1; [|done]. eapply Hstep; [|done]. by apply elem_of_cons; left.
    + intros <- _. exists x, s. split_and!; [by apply elem_of_cons; left | done | done].
    + intros <- _. exists x, s. split_and!; [by apply elem_of_cons; left | done | done].
Qed.

End ForEach.

(** Two bodies that agree wherever the first one ends give loops that agree
    wherever the first loop ends. *)
Lemma for_each_agree {A S} (body body' : A → S → outcome S) l s :
  (∀ x s, body x s ≠ Diverge → body' x s = body x s) →
  for_each body l s ≠ Diverge →
  for_each body' l s = for_each body l s.
Proof.
  intros Hb. revert s. induction l as [|x l IH]; intros s; [done|].
  rewrite !for_each_cons. destruct (body x s) as [s1|e|] eqn:E.
  - intros Hl. rewrite Hb, E by by rewrite E. by apply IH.
  - intros _. rewrite Hb, E by by rewrite E. done.
  - done.
Qed.

(** ** The scheduler *)

Section SchedulerFacts.
Context {Container : Type} (items : dict (Extension Container)).
Implicit Types (st : SortState Container) (name : string).

#[local] Abbreviation hint_body fuel :=
  (fun dep s => if dict_mem dep items then visit fuel items dep s else Ok s).

#[local] Instance same_temp_refl : Reflexive (@same_temp Container).
Proof. by intros s. Qed.
#[local] Instance same_temp_trans : Transitive (@same_temp Container).
Proof. unfold same_temp. intros s1 s2 s3 H1 H2. congruence. Qed.

Lemma visit_S fuel name st :
  visit (S fuel) items name st
  = if decide (name ∈ temp_visited st) then Raise (circular name)
    else if decide (name ∈ visited st) then Ok st
    else
      match
        match dict_get name items with
        | Some ext =>
            for_each (hint_body fuel) (get_load_order_hints ext)
              {| visited := visited st;
                 temp_visited := {[name]} ∪ temp_visited st;
                 result := result st |}
        | None => Ok {| visited := visited st;
                        temp_visited := {[name]} ∪ temp_visited st;
                        result := result st |}
        end
      with
      | Ok st2 =>
          Ok {| visited := {[name]} ∪ visited st2;
                temp_visited := temp_visited st2 ∖ {[name]};
                result := match dict_get name items with
                          | Some ext => result st2 ++ [ext]
                          | None => result st2
                          end |}
      | Raise e => Raise e
      | Diverge => Diverge
      end.
Proof. reflexivity. Qed.

(** A call of [visit] that returns leaves [temp_visited] as it found it. *)
Lemma visit_temp fuel name st st' :
  visit fuel items name st = Ok st' → temp_visited st' = temp_visited st.
Proof.
  revert name st st'. induction fuel as [|fuel IH]; intros name st st'; [done|].
  rewrite visit_S. repeat case_decide; try done; [by intros [= ->]|].
  destruct (dict_get name items) as [ext|] eqn:Hg.
  - destruct (for_each _ _ _) as [st2| |] eqn:Hl; try done.
    intros [= <-]. simpl.
    apply (for_each_Ok _ same_temp) in Hl.
    + unfold same_temp in Hl. simpl in Hl. rewrite Hl. set_solver.
    + intros dep s s' _. destruct (dict_mem dep items).
      * apply IH.
      * by intros [= ->].
  - intros [= <-]. simpl. set_solver.
Qed.

Lemma hint_body_temp fuel (l : list string) dep s s' :
  dep ∈ l → hint_body fuel dep s = Ok s' → same_temp s s'.
Proof.
  intros _. simpl. destruct (dict_mem dep items).
  - apply visit_temp.
  - by intros [= ->].
Qed.

(** [visit] raises only the circular-ordering error, and the name it
    reports lies on a cycle of hints, or is on the current path and is
    reached from the visited name. *)
Lemma visit_raise fuel name st e :
  visit fuel items name st = Raise e →
  ∃ n, e = circular n ∧
       ((n ∈ temp_visited st ∧ rtc (hinted items) name n) ∨
        tc (hinted items) n n).
Proof.
  revert name st. induction fuel as [|fuel IH]; intros name st; [done|].
  rewrite visit_S. case_decide as Ht.
  { intros [= <-]. exists name. split; [done|]. by left. }
  case_decide as Hv; [done|].
  destruct (dict_get name items) as [ext|] eqn:Hg; [|done].
  destruct (for_each _ _ _) as [st2|e'|] eqn:Hl; try done.
  intros [= ->].
  apply (for_each_fail _ same_temp) in Hl as (dep & s0 & Hdep & Hs0 & Hb);
    [|apply hint_body_temp|done].
  simpl in Hb. destruct (dict_mem dep items) eqn:Hm; [|done].
  apply IH in Hb as (n & -> & Hn). exists n. split; [done|].
  assert (hinted items name dep) as Hedge.
  { exists ext. split_and!; [done..|]. by apply dict_mem_keys. }
  destruct Hn as [[Hin Hpath]|Hcyc]; [|by right].
  unfold same_temp in Hs0. rewrite Hs0 in Hin. simpl in Hin.
  apply elem_of_union in Hin as [Hin|Hin].
  - apply elem_of_singleton in Hin as ->. right.
    eapply tc_rtc_r; [by apply tc_once|done].
  - left. split; [done|]. by eapply rtc_l.
Qed.

(** With a budget above the number of names not on the current path,
    [visit] returns or raises. *)
Lemma visit_fuel fuel name st :
  (size (list_to_set (keys items) ∖ temp_visited st : gset string) < fuel)%nat →
  visit fuel items name st ≠ Diverge.
Proof.
  revert name st. induction fuel as [|fuel IH]; intros name st Hsz; [lia|].
  rewrite visit_S. case_decide as Ht; [done|]. case_decide as Hv; [done|].
  destruct (dict_get name items) as [ext|] eqn:Hg; [|done].
  destruct (for_each _ _ _) as [st2|e'|] eqn:Hl; try done.
  apply (for_each_fail _ same_temp) in Hl as (dep & s0 & Hdep & Hs0 & Hb);
    [|apply hint_body_temp|done].
  simpl in Hb. destruct (dict_mem dep items) eqn:Hm; [|done].
  exfalso. revert Hb. apply IH.
  unfold same_temp in Hs0. rewrite Hs0. simpl.
  apply dict_get_key in Hg.
  assert ((list_to_set (keys items) ∖ ({[name]} ∪ temp_visited st) : gset string)
          ⊂ list_to_set (keys items) ∖ temp_visited st) as Hsub.
  { split; [set_solver|]. intros Hc. specialize (Hc name). set_solver. }
  apply subset_size in Hsub. lia.
Qed.

Context (Hwf : wf_dict items).

Lemma hints_loop_ok fuel :
  (∀ name st st', sort_inv items st → visit fuel items name st = Ok st' →
                  visit_post items name st st') →
  ∀ hints st st', sort_inv items st →
    for_each (hint_body fuel) hints st = Ok st' →
    sort_inv items st' ∧ temp_visited st' = temp_visited st ∧
    visited st ⊆ visited st' ∧
    ∀ dep, dep ∈ hints → dep ∈ keys items → dep ∈ visited st'.
Proof.
  intros IH. induction hints as [|dep hints IHl]; intros st st' Hinv.
  - intros [= <-]. split_and!; try done. intros ? H. by apply elem_of_nil in H.
  - rewrite for_each_cons. destruct (dict_mem dep items) eqn:Hm.
    + destruct (visit fuel items dep st) as [s1| |] eqn:Hv; try done.
      intros Hl. destruct (IH _ _ _ Hinv Hv) as (I1 & T1 & V1 & D1).
      destruct (IHl _ _ I1 Hl) as (I2 & T2 & V2 & D2).
      split_and!; [done | congruence | set_solver |].
      intros d Hd Hk. apply elem_of_cons in Hd as [->|Hd]; [set_solver | auto].
    + intros Hl. destruct (IHl _ _ Hinv Hl) as (I2 & T2 & V2 & D2).
      split_and!; try done.
      intros d Hd Hk. apply elem_of_cons in Hd as [->|Hd]; [|auto].
      apply dict_mem_false in Hm. done.
Qed.

(** A call of [visit] that returns keeps the invariant and has placed the
    visited name. *)
Lemma visit_ok fuel name st st' :
  sort_inv items st → visit fuel items name st = Ok st' → visit_post items name st st'.
Proof.
  revert name st st'. induction fuel as [|fuel IH]; intros name st st' Hinv;
    [done|].
  rewrite visit_S. case_decide as Ht; [done|]. case_decide as Hv.
  { intros [= <-]. by split_and!. }
  assert (sort_inv items {| visited := visited st;
                      temp_visited := {[name]} ∪ temp_visited st;
                      result := result st |}) as Hinv1.
  { destruct Hinv. constructor; simpl; try done. set_solver. }
  destruct (dict_get name items) as [ext|] eqn:Hg.
  - destruct (for_each _ _ _) as [st2| |] eqn:Hl; try done.
    intros [= <-].
    destruct (hints_loop_ok fuel IH _ _ _ Hinv1 Hl) as (I2 & T2 & V2 & D2).
    simpl in T2, V2.
    assert (get_name ext = name) as Hname.
    { apply Hwf. by apply dict_get_elem. }
    assert (name ∉ visited st2) as Hfresh.
    { pose proof (inv_disjoint _ _ I2). set_solver. }
    assert (name ∉ get_name <$> result st2) as Hfresh'.
    { rewrite (inv_visited _ _ I2). tauto. }
    split_and!; simpl; [|set_solver..].
    destruct I2 as [N2 Vis2 It2 Dis2 Ord2].
    constructor; simpl.
    + rewrite fmap_app. simpl. rewrite Hname.
      apply NoDup_app. split_and!; [done | set_solver | apply NoDup_singleton].
    + intros n. rewrite fmap_app. simpl. rewrite Hname, elem_of_app, Vis2.
      rewrite list_elem_of_singleton, elem_of_union, elem_of_singleton.
      apply dict_get_key in Hg. naive_solver.
    + intros e He. apply elem_of_app in He as [He|He]; [auto|].
      apply list_elem_of_singleton in He as ->. by rewrite Hname.
    + set_solver.
    + intros i e p Hi Hp Hk. rewrite fmap_app.
      destruct (decide (i < length (result st2))%nat) as [Hlt|Hge].
      * rewrite lookup_app_l in Hi by done.
        destruct (Ord2 i e p Hi Hp Hk) as (j & Hj & Hjp).
        exists j. split; [done|]. rewrite lookup_app_l; [done|].
        rewrite length_fmap. lia.
      * rewrite lookup_app_r in Hi by lia.
        apply list_lookup_singleton_Some in Hi as [Hi <-].
        assert (p ∈ get_name <$> result st2) as Hin.
        { apply Vis2. split; [|done]. by apply D2. }
        apply list_elem_of_lookup in Hin as [j Hj].
        exists j. split.
        -- apply lookup_lt_Some in Hj. rewrite length_fmap in Hj. lia.
        -- by apply lookup_app_l_Some.
  - intros [= <-]. apply dict_get_None in Hg.
    split_and!; simpl; [|set_solver..].
    destruct Hinv as [N2 Vis2 It2 Dis2 Ord2]. constructor; simpl; try done.
    + intros n. rewrite Vis2. set_solver.
    + set_solver.
Qed.

Lemma keys_loop_ok fuel (l : list string) st st' :
  sort_inv items st → for_each (visit fuel items) l st = Ok st' →
  sort_inv items st' ∧ temp_visited st' = temp_visited st ∧
  visited st ⊆ visited st' ∧ ∀ k, k ∈ l → k ∈ visited st'.
Proof.
  revert st. induction l as [|k l IHl]; intros st Hinv.
  - intros [= <-]. split_and!; try done. intros ? H. by apply elem_of_nil in H.
  - rewrite for_each_cons.
    destruct (visit fuel items k st) as [s1| |] eqn:Hv; try done.
    intros Hl. destruct (visit_ok _ _ _ _ Hinv Hv) as (I1 & T1 & V1 & D1).
    destruct (IHl _ I1 Hl) as (I2 & T2 & V2 & D2).
    split_and!; [done | congruence | set_solver |].
    intros d Hd. apply elem_of_cons in Hd as [->|Hd]; [set_solver | auto].
Qed.

Lemma sort_init_inv : sort_inv items sort_init.
Proof.
  constructor; simpl; try done.
  - constructor.
  - intros n. split; [by intros H; apply elem_of_nil in H | set_solver].
  - intros e H. by apply elem_of_nil in H.
Qed.

Lemma omap_get_names (order : list (Extension Container)) :
  (∀ e, e ∈ order → dict_get (get_name e) items = Some e) →
  omap (fun n => dict_get n items) (get_name <$> order) = order.
Proof.
  induction order as [|e order IH]; intros H; simpl; [done|].
  rewrite H by (by apply elem_of_cons; left).
  f_equal. apply IH. intros e' He'. apply H. by apply elem_of_cons; right.
Qed.

Lemma omap_get_prefix (d1 d2 : dict (Extension Container)) :
  NoDup (keys (d1 ++ d2)) →
  omap (fun n => dict_get n (d1 ++ d2)) (keys d2) = values d2.
Proof.
  revert d1. induction d2 as [|[k e] d2 IH]; intros d1 Hn; simpl; [done|].
  rewrite (elem_dict_get (d1 ++ (k, e) :: d2) k e Hn)
    by (apply elem_of_app; right; by apply elem_of_cons; left).
  simpl. f_equal.
  specialize (IH (d1 ++ [(k, e)])). rewrite <- app_assoc in IH. by apply IH.
Qed.

Lemma omap_get_keys :
  omap (fun n => dict_get n items) (keys items) = values items.
Proof. apply (omap_get_prefix [] items). apply Hwf. Qed.

Lemma hinted_keys E P : tc (hinted items) E P → P ∈ keys items.
Proof.
  induction 1 as [E P (e & _ & _ & Hk)|]; done.
Qed.

(** The scheduler returns or raises whenever its budget exceeds the number
    of items; what it returns is a hint-respecting permutation, what it
    raises names an extension on a cycle of hints. *)
Lemma topological_sort_spec fuel :
  (length items < fuel)%nat →
  (∃ order,
     topological_sort fuel items = Ok order ∧
     order ≡ₚ values items ∧
     NoDup (get_name <$> order) ∧
     get_name <$> order ≡ₚ keys items ∧
     ∀ E P, hinted items E P → strictly_before P E (get_name <$> order))
  ∨ (∃ n,
       topological_sort fuel items = Raise (circular n) ∧
       tc (hinted items) n n).
Proof.
  intros Hfuel. unfold topological_sort.
  destruct (for_each (visit fuel items) (keys items) _) as [st'|e|] eqn:Hl.
  - left. exists (result st'). split; [done|].
    destruct (keys_loop_ok _ _ _ _ sort_init_inv Hl) as (I & T & V & D).
    assert (get_name <$> result st' ≡ₚ keys items) as Hperm.
    { apply NoDup_Permutation; [apply I | apply Hwf |].
      intros n. rewrite (inv_visited _ _ I). naive_solver. }
    split_and!; [|apply I|done|].
    + rewrite <- (omap_get_names (result st')) by apply I.
      rewrite <- omap_get_keys. by apply omap_Permutation.
    + intros E P (e & Hg & Hp & Hk).
      assert (e ∈ result st') as He.
      { assert (E ∈ get_name <$> result st') as HE.
        { rewrite Hperm. by eapply dict_get_key. }
        apply list_elem_of_fmap in HE as (e' & -> & He').
        rewrite (inv_items _ _ I e' He') in Hg. by injection Hg as <-. }
      apply list_elem_of_lookup in He as [i Hi].
      destruct (inv_order _ _ I i e P Hi Hp Hk) as (j & Hj & HjP).
      exists j, i. split_and!; [done| |done].
      rewrite list_lookup_fmap, Hi. simpl. f_equal.
      apply Hwf. by apply dict_get_elem.
  - right.
    apply (for_each_fail _ same_temp) in Hl as (k & s0 & Hk & Hs0 & Hb);
      [|by intros ????; apply visit_temp|done].
    apply visit_raise in Hb as (n & -> & [[Hin _]|Hcyc]).
    + unfold same_temp in Hs0. rewrite Hs0 in Hin. set_solver.
    + by exists n.
  - exfalso.
    apply (for_each_fail _ same_temp) in Hl as (k & s0 & Hk & Hs0 & Hb);
      [|by intros ????; apply visit_temp|done].
    revert Hb. apply visit_fuel.
    unfold same_temp in Hs0. rewrite Hs0. simpl.
    rewrite difference_empty_L, size_list_to_set by apply Hwf.
    unfold keys. by rewrite length_fmap.
Qed.

(** A call of [visit] that ends within a budget ends the same way within
    any larger one. *)
Lemma visit_more_fuel fuel name st :
  visit fuel items name st ≠ Diverge →
  visit (S fuel) items name st = visit fuel items name st.
Proof.
  revert name st. induction fuel as [|fuel IH]; intros name st; [done|].
  rewrite (visit_S (S fuel)), (visit_S fuel).
  case_decide; [done|]. case_decide; [done|].
  destruct (dict_get name items) as [ext|]; [|done].
  intros Hd. rewrite (for_each_agree (hint_body fuel) (hint_body (S fuel))).
  - done.
  - intros dep s' Hs'. destruct (dict_mem dep items); [by apply IH | done].
  - intros Hl. by rewrite Hl in Hd.
Qed.

Lemma topological_sort_more_fuel fuel :
  topological_sort fuel items ≠ Diverge →
  topological_sort (S fuel) items = topological_sort fuel items.
Proof.
  unfold topological_sort. intros Hd.
  rewrite (for_each_agree (visit fuel items) (visit (S fuel) items)).
  - done.
  - intros k s' Hs'. by apply visit_more_fuel.
  - intros Hl. by rewrite Hl in Hd.
Qed.

(** The budget [_sort_extensions] passes is immaterial: every larger one
    gives the same list or the same error. *)
Lemma topological_sort_fuel_irrelevant fuel args :
  (length items < fuel)%nat →
  topological_sort fuel items = _sort_extensions items args.
Proof.
  unfold _sort_extensions. intros Hf.
  replace fuel with ((fuel - S (length items)) + S (length items))%nat by lia.
  induction (fuel - S (length items))%nat as [|k IH]; [done|].
  simpl. rewrite topological_sort_more_fuel; [done|].
  rewrite IH.
  destruct (topological_sort_spec (S (length items))) as
    [(o & -> & _)|(n & -> & _)]; [lia|done..].
Qed.

End SchedulerFacts.

(** ** Well-formed registries *)

Section WfFacts.
Context {Container : Type}.
Implicit Types (d : dict (Extension Container)).

Lemma wf_dict_nil : wf_dict ([] : dict (Extension Container)).
Proof.
  split; [constructor|]. intros k e H. by apply elem_of_nil in H.
Qed.

Lemma register_extension_wf ext d :
  wf_dict d → wf_dict (register_extension ext d).
Proof.
  intros [Hn Hk]. split.
  - by apply dict_set_NoDup.
  - intros k e Hin. apply dict_set_elem in Hin as [[= -> ->]|Hin]; auto.
Qed.

(** An order of precedence that every hint respects rules out cycles. *)
Lemma acyclic_ranked d (rank : string → nat) :
  (∀ E P, hinted d E P → (rank P < rank E)%nat) → acyclic d.
Proof.
  intros Hr.
  assert (∀ n m, tc (hinted d) n m → (rank m < rank n)%nat) as Htc.
  { induction 1 as [n m H|n m k H _ IH]; [by apply Hr|].
    apply Hr in H. lia. }
  intros n Hc. apply Htc in Hc. lia.
Qed.

End WfFacts.

(** ** Resolver and scheduler together *)

Section Resolution.
Context {Container : Type}.
Implicit Types (extensions items active : dict (Extension Container)).

Lemma sort_extensions_spec items args :
  wf_dict items →
  (∃ order,
     _sort_extensions items args = Ok order ∧
     order ≡ₚ values items ∧
     NoDup (get_name <$> order) ∧
     get_name <$> order ≡ₚ keys items ∧
     ∀ E P, hinted items E P → strictly_before P E (get_name <$> order))
  ∨ (∃ n,
       _sort_extensions items args = Raise (circular n) ∧
       tc (hinted items) n n).
Proof. intros Hwf. apply topological_sort_spec; [done | lia]. Qed.

(** What [get_active_extensions] computes before it sorts. *)
Lemma get_active_extensions_spec extensions args :
  wf_dict extensions →
  ∃ active,
    resolve_active extensions args = Ok active ∧
    get_active_extensions extensions args = _sort_extensions active args ∧
    wf_dict active ∧
    sound extensions args active ∧
    closed extensions active ∧
    ∀ n e, dict_get n extensions = Some e →
           check_args_for_activation e args = true →
           dict_get n active = Some e.
Proof.
  intros [Hn Hk].
  destruct (resolve_active_spec extensions args Hn)
    as (active & E & N & S' & C & Hseed).
  exists active. unfold get_active_extensions. rewrite E.
  split_and!; try done.
  - split; [done|]. intros k e Hin. apply Hk.
    apply dict_get_elem. by apply S'.
  - intros n e Hg Hp. apply Hseed.
    rewrite initially_requested_get by done. by rewrite Hg, Hp.
Qed.

(** On a well-formed registry [get_active_extensions] returns a list or
    raises; it never runs out of budget. *)
Lemma get_active_extensions_ends extensions args :
  wf_dict extensions → get_active_extensions extensions args ≠ Diverge.
Proof.
  intros Hwf.
  destruct (get_active_extensions_spec extensions args Hwf)
    as (active & _ & -> & Hwa & _).
  by destruct (sort_extensions_spec active args Hwa)
    as [(o & -> & _)|(n & -> & _)].
Qed.

(** The registry an entry point builds is well formed. *)
Lemma registered_wf builtin extensions :
  wf_dict extensions → wf_dict (registered builtin extensions).
Proof.
  revert extensions. induction builtin as [|ext builtin IH];
    intros extensions Hwf; simpl; [done|].
  by apply IH, register_extension_wf.
Qed.

Lemma values_elem items e :
  wf_dict items → e ∈ values items ↔ dict_get (get_name e) items = Some e.
Proof.
  intros [Hn Hk]. unfold values. rewrite list_elem_of_fmap. split.
  - intros ([k e'] & -> & Hin). simpl. rewrite (Hk _ _ Hin).
    by apply elem_dict_get.
  - intros Hg. exists (get_name e, e). split; [done|]. by apply dict_get_elem.
Qed.

End Resolution.

(** ** Computations on the core object *)

Section RunnerFacts.
Context {Container : Type} (backend : Backend Container).
Implicit Types (s : Core Container) (args : Args).
Implicit Types (P : Event Container → Prop).

Lemma bind_get_core {B} (k : Core Container → M B) s :
  (x ← get_core; k x) s = k s s.
Proof. unfold mbind, M_bind, get_core. by destruct (k s s) as [[??]?]. Qed.

Lemma bind_lift_Ok {A B} (a : A) (k : A → M B) s :
  (x ← lift (Ok a); k x) s = k a s.
Proof. unfold mbind, M_bind, lift. by destruct (k a s) as [[??]?]. Qed.

Lemma bind_lift_Raise {A B} e (k : A → M B) s :
  (x ← lift (Raise e); k x) s = ([], s, Raise e).
Proof. reflexivity. Qed.

Lemma bind_set_active {B} l (k : unit → M B) s :
  (x ← set_active l; k x) s = k tt (with_active s l).
Proof.
  unfold mbind, M_bind, set_active, with_active.
  by destruct (k tt _) as [[??]?].
Qed.

Lemma bind_emit {B} ev (k : unit → M B) s :
  (x ← emit ev; k x) s = ((ev :: (k tt s).1.1, (k tt s).1.2), (k tt s).2).
Proof. unfold mbind, M_bind, emit. by destruct (k tt s) as [[??]?]. Qed.

Lemma bind_ret {A B} (a : A) (k : A → M B) s :
  (x ← mret a; k x) s = k a s.
Proof. unfold mbind, M_bind, mret, M_ret. by destruct (k a s) as [[??]?]. Qed.

Lemma emits_ret P {A} (a : A) : emits P (mret a : M A).
Proof. intros s. constructor. Qed.

Lemma emits_bind P {A B} (m : M A) (k : A → M B) :
  emits P m → (∀ a, emits P (k a)) → emits P (x ← m; k x).
Proof.
  intros Hm Hk s. unfold mbind, M_bind. specialize (Hm s).
  destruct (m s) as [[t1 s1] [a|e|]]; simpl in *; try done.
  specialize (Hk a s1). destruct (k a s1) as [[t2 s2] o2]. simpl in *.
  by apply Forall_app.
Qed.

Lemma emits_emit P ev : P ev → emits P (emit ev).
Proof. intros H s. simpl. by repeat constructor. Qed.

Lemma emits_lift P {A} (o : outcome A) : emits P (lift o).
Proof. intros s. constructor. Qed.

Lemma emits_get_core P : emits P get_core.
Proof. intros s. constructor. Qed.

Lemma emits_set_active P l : emits P (set_active l).
Proof. intros s. constructor. Qed.

Lemma emits_do_register P ext : emits P (do_register ext).
Proof. intros s. constructor. Qed.

Lemma emits_try_except P {A} (m : M A) (h : exn → M A) :
  emits P m → (∀ e, emits P (h e)) → emits P (try_except m h).
Proof.
  intros Hm Hh s. unfold try_except. specialize (Hm s).
  destruct (m s) as [[t1 s1] [a|e|]]; simpl in *; try done.
  specialize (Hh e s1). destruct (h e s1) as [[t2 s2] o2]. simpl in *.
  by apply Forall_app.
Qed.

Lemma emits_closing P {A} (m : M A) :
  P EvDisconnect → emits P m → emits P (closing m).
Proof.
  intros Hd Hm s. unfold closing. specialize (Hm s).
  destruct (m s) as [[t1 s1] [a|e|]]; simpl in *; try done;
    apply Forall_app; by repeat constructor.
Qed.

Lemma emits_with_connection P {A} (m : M A) :
  P EvConnect → P EvDisconnect → emits P m →
  emits P (with_connection backend m).
Proof.
  intros Hc Hd Hm. unfold with_connection.
  apply emits_bind; [by apply emits_emit|]. intros _.
  apply emits_bind; [apply emits_lift|]. intros _.
  by apply emits_closing.
Qed.

Lemma emits_apply_extensions P exts c args :
  (∀ n c, P (EvSetup n c)) → emits P (apply_extensions exts c args).
Proof.
  intros HP. revert c. induction exts as [|ext exts IH]; intros c; simpl.
  - apply emits_ret.
  - apply emits_bind; [by apply emits_emit|]. intros _.
    apply emits_bind; [apply emits_lift|]. intros c'. apply IH.
Qed.

Lemma emits_validate_or_return P exts args :
  (∀ n, P (EvValidate n)) → (∀ l, P (EvPrint l)) →
  emits P (validate_or_return exts args).
Proof.
  intros Hv Hp. induction exts as [|ext exts IH]; simpl.
  - apply emits_ret.
  - apply emits_bind.
    + apply emits_try_except.
      * apply emits_bind; [by apply emits_emit|]. intros _.
        apply emits_bind; [apply emits_lift|]. intros _. apply emits_ret.
      * intros e. apply emits_bind; [by apply emits_emit|]. intros _.
        apply emits_ret.
    + intros [code|]; [apply emits_ret | apply IH].
Qed.

Lemma emits_print_order P i exts :
  (∀ l, P (EvPrint l)) → emits P (print_order i exts).
Proof.
  intros Hp. revert i. induction exts as [|ext exts IH]; intros i; simpl.
  - apply emits_ret.
  - apply emits_bind; [by apply emits_emit|]. intros _. apply IH.
Qed.

Lemma emits_print_image_command P args :
  (∀ l, P (EvPrint l)) → emits P (print_image_command args).
Proof.
  intros Hp. unfold print_image_command.
  apply emits_bind; [apply emits_lift|]. intros image.
  apply emits_bind; [by apply emits_emit|]. intros _.
  destruct (truthy _); [|apply emits_ret].
  apply emits_bind; [apply emits_lift|]. intros c. by apply emits_emit.
Qed.

Lemma emits_register_all P builtin : emits P (register_all builtin).
Proof.
  induction builtin as [|ext builtin IH]; simpl.
  - apply emits_ret.
  - apply emits_bind; [apply emits_do_register|]. intros _. apply IH.
Qed.

Lemma register_all_eq builtin s :
  register_all builtin s
  = ([], {| extensions := registered builtin (extensions s);
            active_extensions := active_extensions s |}, Ok tt).
Proof.
  revert s. induction builtin as [|ext builtin IH]; intros s; simpl.
  - by destruct s.
  - unfold mbind, M_bind, do_register. by rewrite IH.
Qed.

Lemma bind_Ok {A B} (m : M A) (k : A → M B) s t s' a :
  m s = (t, s', Ok a) →
  (x ← m; k x) s = (t ++ (k a s').1.1, (k a s').1.2, (k a s').2).
Proof.
  intros E. unfold mbind, M_bind. rewrite E. by destruct (k a s') as [[??]?].
Qed.

Lemma bind_Raise {A B} (m : M A) (k : A → M B) s t s' e :
  m s = (t, s', Raise e) → (x ← m; k x) s = (t, s', Raise e).
Proof. intros E. unfold mbind, M_bind. by rewrite E. Qed.

Lemma args_item_truthy k args :
  truthy (args_get k args) = true → args_item k args = Ok (args_get k args).
Proof.
  unfold args_item, args_get. by destruct (dict_get k args).
Qed.

Lemma validate_or_return_Ok exts args s :
  Forall (fun e => validate_environment e args = Ok tt) exts →
  validate_or_return exts args s
  = (EvValidate <$> (get_name <$> exts), s, Ok None).
Proof.
  induction 1 as [|ext exts Hv _ IH]; simpl; [done|].
  erewrite bind_Ok; cycle 1.
  { unfold try_except. rewrite bind_emit.
    unfold mbind, M_bind, lift. rewrite Hv. reflexivity. }
  simpl. by rewrite IH.
Qed.

Lemma print_order_eq i exts s :
  print_order i exts s = (order_lines i (get_name <$> exts), s, Ok tt).
Proof.
  revert i. induction exts as [|ext exts IH]; intros i; simpl; [done|].
  unfold print. rewrite bind_emit. by rewrite IH.
Qed.

Lemma print_image_command_eq args image s :
  dict_get "image" args = Some image →
  print_image_command args s
  = (EvPrint (LImage image) :: command_line args, s, Ok tt).
Proof.
  intros Hi. unfold print_image_command, command_line.
  assert (args_item "image" args = Ok image) as -> by (unfold args_item; by rewrite Hi).
  rewrite bind_lift_Ok. unfold print. rewrite bind_emit.
  destruct (truthy (args_get "command" args)) eqn:Ht; [|done].
  by rewrite (args_item_truthy _ _ Ht), bind_lift_Ok.
Qed.



(** Validation when every extension validates. *)
Lemma validate_all_Ok exts args s :
  Forall (fun e => validate_environment e args = Ok tt) exts →
  validate_all exts args s = (EvValidate <$> (get_name <$> exts), s, Ok tt).
Proof.
  induction 1 as [|ext exts Hv _ IH]; simpl; [done|].
  rewrite bind_emit. unfold mbind at 1 2 3, M_bind, lift. rewrite Hv, IH.
  done.
Qed.

(** Validation stops at the first extension that raises. *)
Lemma validate_all_Raise pre ext post err args s :
  Forall (fun e => validate_environment e args = Ok tt) pre →
  validate_environment ext args = Raise err →
  validate_all (pre ++ ext :: post) args s
  = (EvValidate <$> (get_name <$> pre ++ [ext]), s, Raise err).
Proof.
  intros Hpre Herr. induction Hpre as [|e pre Hv _ IH]; simpl.
  - rewrite bind_emit. unfold mbind at 1 2 3, M_bind, lift. by rewrite Herr.
  - rewrite bind_emit. unfold mbind at 1 2 3, M_bind, lift. rewrite Hv, IH.
    done.
Qed.

End RunnerFacts.

(** One step of a proof that a computation only makes calls of a kind. *)
Ltac emits_step :=
  first
    [ apply emits_ret | apply emits_lift | apply emits_get_core
    | apply emits_set_active | apply emits_do_register
    | apply emits_register_all
    | apply emits_emit; done
    | apply emits_apply_extensions; done
    | apply emits_validate_or_return; done
    | apply emits_print_order; done
    | apply emits_print_image_command; done
    | apply emits_closing; [done|]
    | apply emits_with_connection; [done|done|]
    | apply emits_try_except; [|intros ?]
    | apply emits_bind; [|intros ?] ].

(** ** The entry points in dry-run mode *)

Section DryRun.
Context {Container : Type} (backend : Backend Container).
Context (builtin : list (Extension Container)) (args : Args).
Context (Hdry : truthy (args_get "dry_run" args) = true).

Lemma cli_main_dry_emits : emits report_only (cli_main backend builtin args).
Proof.
  unfold cli_main.
  apply emits_bind; [apply emits_register_all|]. intros _.
  apply emits_bind; [repeat emits_step|].
  intros [code|]; [apply emits_ret|].
  apply emits_bind; [apply emits_get_core|]. intros core.
  apply emits_bind; [by apply emits_validate_or_return|].
  intros [code|]; [apply emits_ret|].
  rewrite Hdry. repeat emits_step.
Qed.

Lemma main_main_dry_emits :
  emits report_only (main_main backend builtin args).
Proof.
  unfold main_main.
  do 6 (apply emits_bind; [repeat emits_step|]; intros ?).
  apply emits_bind; [by apply emits_validate_or_return|].
  intros [code|]; [apply emits_ret|].
  rewrite Hdry. repeat emits_step.
Qed.

Context (s : Core Container) (order : list (Extension Container)).
Context
  (Hget : get_active_extensions (registered builtin (extensions s)) args
          = Ok order).

Lemma cli_main_resolved :
  ∃ t, (cli_main backend builtin args s).1.1
       = EvPrint (LActive (get_name <$> order)) :: t.
Proof.
  unfold cli_main.
  rewrite (bind_Ok _ _ _ _ _ _ (register_all_eq builtin s)). simpl.
  erewrite bind_Ok; cycle 1.
  { unfold try_except. rewrite bind_get_core. simpl. rewrite Hget.
    rewrite bind_lift_Ok, bind_set_active. unfold print.
    rewrite bind_emit. simpl. reflexivity. }
  simpl. eexists. reflexivity.
Qed.

Lemma main_main_resolved :
  ∃ t, (main_main backend builtin args s).1.1
       = EvPrint (LActive (get_name <$> order)) :: t.
Proof.
  unfold main_main.
  rewrite (bind_Ok _ _ _ _ _ _ (register_all_eq builtin s)). simpl.
  rewrite bind_get_core. simpl. rewrite Hget.
  rewrite bind_lift_Ok, bind_set_active. unfold print.
  rewrite bind_emit. simpl. eexists. reflexivity.
Qed.

Context (image : Value).
Context (Hvalid : Forall (fun e => validate_environment e args = Ok tt) order).
Context (Himage : dict_get "image" args = Some image).

Lemma cli_main_dry_run :
  cli_main backend builtin args s
  = ([EvPrint (LActive (get_name <$> order))]
       ++ (EvValidate <$> (get_name <$> order))
       ++ [EvPrint LDryRun; EvPrint (LImage image)]
       ++ command_line args
       ++ [EvPrint LOrderHeader]
       ++ order_lines 1 (get_name <$> order),
     resolved_core builtin s order, Ok 0).
Proof.
  unfold cli_main.
  rewrite (bind_Ok _ _ _ _ _ _ (register_all_eq builtin s)). simpl.
  erewrite bind_Ok; cycle 1.
  { unfold try_except. rewrite bind_get_core. simpl. rewrite Hget.
    rewrite bind_lift_Ok, bind_set_active. unfold print.
    rewrite bind_emit. simpl. reflexivity. }
  simpl. rewrite bind_get_core. simpl.
  rewrite (bind_Ok _ _ _ _ _ _ (validate_or_return_Ok _ _ _ Hvalid)).
  simpl. rewrite Hdry. unfold print. rewrite bind_emit.
  rewrite (bind_Ok _ _ _ _ _ _ (print_image_command_eq _ _ _ Himage)).
  rewrite bind_emit, bind_get_core. simpl.
  rewrite (bind_Ok _ _ _ _ _ _ (print_order_eq _ _ _)). simpl.
  rewrite app_nil_r. reflexivity.
Qed.

End DryRun.

(** * The claims *)

Section Claims.
Context {Container : Type}.
Implicit Types (extensions items active : dict (Extension Container)).
Implicit Types (args : Args).

(** C1. For an active set whose hint graph, restricted to active names, has
    no cycle, the scheduler returns a list, and in it every hinted
    predecessor that is itself active stands strictly before the extension
    that hints it. A hint naming an inactive extension is not an edge of
    the graph: it raises nothing and brings no extra name into the list. *)
Theorem sort_respects_hints items args :
  wf_dict items → acyclic items →
  ∃ order,
    _sort_extensions items args = Ok order ∧
    get_name <$> order ≡ₚ keys items ∧
    ∀ E e P, dict_get E items = Some e →
             P ∈ get_load_order_hints e → P ∈ keys items →
             strictly_before P E (get_name <$> order).
Proof.
  intros Hwf Hac.
  destruct (sort_extensions_spec items args Hwf)
    as [(order & E & _ & _ & Hperm & Hord)|(n & _ & Hcyc)].
  - exists order. split_and!; try done.
    intros E' e P Hg Hp Hk. apply Hord. by exists e.
  - by destruct (Hac n).
Qed.

(** C2. The resolver returns an active set that holds every registered
    extension whose activation predicate accepts the options and that is
    closed under registered dependency names; the list
    [get_active_extensions] returns has the same two properties. *)
Theorem resolver_superset_closed extensions args :
  wf_dict extensions →
  ∃ active,
    resolve_active extensions args = Ok active ∧
    (∀ n e, dict_get n extensions = Some e →
            check_args_for_activation e args = true →
            dict_get n active = Some e) ∧
    closed extensions active ∧
    ∀ order, get_active_extensions extensions args = Ok order →
      (∀ n e, dict_get n extensions = Some e →
              check_args_for_activation e args = true → e ∈ order) ∧
      (∀ e d, e ∈ order → d ∈ get_dependencies e → d ∈ keys extensions →
              d ∈ get_name <$> order).
Proof.
  intros Hwf.
  destruct (get_active_extensions_spec extensions args Hwf)
    as (active & E & Eg & Hwa & Hs & Hc & Hseed).
  exists active. split_and!; try done.
  intros order Ho. rewrite Eg in Ho.
  destruct (sort_extensions_spec active args Hwa)
    as [(order' & E' & Hperm & _ & Hnames & _)|(n & E' & _)];
    rewrite E' in Ho; [|done].
  injection Ho as ->. split.
  - intros n e Hg Hp. rewrite Hperm. apply values_elem; [done|].
    assert (get_name e = n) as ->; [|by apply Hseed].
    apply Hwf. by apply dict_get_elem.
  - intros e d He Hd Hk. rewrite Hnames.
    rewrite Hperm in He. apply values_elem in He; [|done].
    by eapply Hc.
Qed.

(** C3. When two active extensions each hint the other, the scheduler
    stops with the circular-ordering error, and the name in its message is
    an active extension lying on a cycle of hints. *)
Theorem mutual_hints_raise items args a b ea eb :
  wf_dict items →
  dict_get a items = Some ea → dict_get b items = Some eb →
  b ∈ get_load_order_hints ea → a ∈ get_load_order_hints eb →
  ∃ n,
    _sort_extensions items args
    = Raise (ValueError ("Circular dependency detected involving " +:+ n)) ∧
    n ∈ keys items ∧ tc (hinted items) n n.
Proof.
  intros Hwf Ha Hb Hab Hba.
  destruct (sort_extensions_spec items args Hwf)
    as [(order & _ & _ & Hnd & _ & Hord)|(n & E & Hcyc)].
  - exfalso.
    destruct (Hord a b) as (i & j & Hi & Hj & Hij).
    { exists ea. split_and!; [done..|]. by eapply dict_get_key. }
    destruct (Hord b a) as (i' & j' & Hi' & Hj' & Hij').
    { exists eb. split_and!; [done..|]. by eapply dict_get_key. }
    pose proof (NoDup_lookup _ _ _ _ Hnd Hi Hj').
    pose proof (NoDup_lookup _ _ _ _ Hnd Hj Hi'). lia.
  - exists n. split_and!; [done| |done]. by eapply hinted_keys.
Qed.

(** C4. [run] validates before it mutates. When every validation returns,
    the calls of [run] begin with the validations of all active extensions
    in list order, and no validation follows the opening of the backend
    connection. When a validation raises, [run] raises the same error and
    has made no call but the validations up to that one: no later
    validation, no mutation, no connection and no build request. *)
Theorem run_validates_first (backend : Backend Container) args
    (s : Core Container) order :
  get_active_extensions (extensions s) args = Ok order →
  (Forall (fun e => validate_environment e args = Ok tt) order →
   ∃ rest,
     (run backend args s).1.1
     = (EvValidate <$> (get_name <$> order)) ++ EvConnect :: rest ∧
     Forall not_validate rest) ∧
  (∀ pre ext post err,
     order = pre ++ ext :: post →
     Forall (fun e => validate_environment e args = Ok tt) pre →
     validate_environment ext args = Raise err →
     run backend args s
     = (EvValidate <$> (get_name <$> pre ++ [ext]), with_active s order,
        Raise err)).
Proof.
  intros Hget. unfold run.
  rewrite bind_get_core, Hget, bind_lift_Ok, bind_set_active, bind_get_core.
  split.
  - intros Hall. unfold mbind at 1, M_bind at 1.
    rewrite validate_all_Ok by done.
    unfold with_connection. rewrite bind_emit. simpl.
    eexists. split; [reflexivity|].
    apply (emits_bind not_validate); [apply emits_lift|]. intros _.
    apply emits_closing; [done|].
    apply emits_bind.
    { unfold base_container. repeat emits_step. }
    intros c. repeat emits_step.
    destruct (truthy _); repeat emits_step.
  - intros pre ext post err -> Hpre Herr.
    unfold mbind at 1, M_bind at 1. simpl active_extensions.
    by rewrite (validate_all_Raise pre ext post err).
Qed.

(** C5. With the dry-run flag set, the entry points of [cli.py] and
    [main.py] call nothing but validations and [print]: no extension's
    [setup_container], no backend connection, no [from_], [with_exec],
    [stdout] or [sync]. Once the order is resolved both print it, name by
    name, in the [Active extensions] line; when every validation returns
    and an image is given, [cli.py] prints it again as the numbered list
    that ends its output, and exits with status 0. *)
Theorem dry_run_reports_only (backend : Backend Container) builtin args
    (s : Core Container) :
  truthy (args_get "dry_run" args) = true →
  Forall report_only (cli_main backend builtin args s).1.1 ∧
  Forall report_only (main_main backend builtin args s).1.1 ∧
  ∀ order,
    get_active_extensions (registered builtin (extensions s)) args
    = Ok order →
    EvPrint (LActive (get_name <$> order))
      ∈ (cli_main backend builtin args s).1.1 ∧
    EvPrint (LActive (get_name <$> order))
      ∈ (main_main backend builtin args s).1.1 ∧
    ∀ image,
      Forall (fun e => validate_environment e args = Ok tt) order →
      dict_get "image" args = Some image →
      (cli_main backend builtin args s).1.1
      = [EvPrint (LActive (get_name <$> order))]
        ++ (EvValidate <$> (get_name <$> order))
        ++ [EvPrint LDryRun; EvPrint (LImage image)]
        ++ command_line args
        ++ [EvPrint LOrderHeader]
        ++ order_lines 1 (get_name <$> order) ∧
      (cli_main backend builtin args s).2 = Ok 0.
Proof.
  intros Hdry. split_and!.
  - by apply cli_main_dry_emits.
  - by apply main_main_dry_emits.
  - intros order Hget.
    destruct (cli_main_resolved backend builtin args s order Hget) as [t Ht].
    destruct (main_main_resolved backend builtin args s order Hget)
      as [t' Ht'].
    split_and!.
    + rewrite Ht. by apply elem_of_cons; left.
    + rewrite Ht'. by apply elem_of_cons; left.
    + intros image Hvalid Himage.
      by rewrite (cli_main_dry_run backend builtin args Hdry s order Hget
                    image Hvalid Himage).
Qed.


(** C7, as the code has it. Registering an extension under a name already
    in the registry raises nothing and replaces the earlier registration:
    the name now maps to the new extension, keeps its position, and every
    other name keeps its extension. *)
Theorem register_overwrites (ext : Extension Container)
    (s : Core Container) :
  get_name ext ∈ keys (extensions s) →
  (do_register ext s).2 = Ok tt ∧
  (do_register ext s).1.1 = [] ∧
  dict_get (get_name ext) (extensions (do_register ext s).1.2) = Some ext ∧
  keys (extensions (do_register ext s).1.2) = keys (extensions s) ∧
  ∀ k, k ≠ get_name ext →
       dict_get k (extensions (do_register ext s).1.2)
       = dict_get k (extensions s).
Proof.
  intros Hin. simpl. unfold register_extension. split_and!; try done.
  - apply dict_get_set_eq.
  - by apply dict_set_keys_old.
  - intros k Hk. by apply dict_get_set_ne.
Qed.

(** C8. A dependency name that is not registered never enters the active
    set and raises nothing: the closure loop always returns, and the only
    error [get_active_extensions] can raise is the scheduler's
    circular-ordering error. *)
Theorem unknown_dependency_ignored extensions args :
  wf_dict extensions →
  ∃ active,
    resolve_active extensions args = Ok active ∧
    (∀ d, d ∉ keys extensions → d ∉ keys active) ∧
    (∀ order d, get_active_extensions extensions args = Ok order →
                d ∉ keys extensions → d ∉ get_name <$> order) ∧
    (∀ e, get_active_extensions extensions args = Raise e →
          ∃ n, e = circular n ∧ n ∈ keys active).
Proof.
  intros Hwf.
  destruct (get_active_extensions_spec extensions args Hwf)
    as (active & E & Eg & Hwa & Hs & Hc & Hseed).
  exists active.
  assert (∀ d, d ∉ keys extensions → d ∉ keys active) as Hout.
  { intros d Hd Hin. apply Hd. by eapply sound_keys. }
  split_and!; try done.
  - intros order d Ho Hd. rewrite Eg in Ho.
    destruct (sort_extensions_spec active args Hwa)
      as [(order' & E' & _ & _ & Hnames & _)|(n & E' & _)];
      rewrite E' in Ho; [|done].
    injection Ho as ->. rewrite Hnames. by apply Hout.
  - intros e He. rewrite Eg in He.
    destruct (sort_extensions_spec active args Hwa)
      as [(order' & E' & _)|(n & E' & Hcyc)]; rewrite E' in He; [done|].
    injection He as <-. exists n. split; [done|]. by eapply hinted_keys.
Qed.

(** C9. A list the scheduler returns is a permutation of the active set:
    the same extensions, each name once, and no other name. *)
Theorem sort_permutation items args order :
  wf_dict items → _sort_extensions items args = Ok order →
  order ≡ₚ values items ∧
  NoDup (get_name <$> order) ∧
  ∀ n, n ∈ get_name <$> order ↔ n ∈ keys items.
Proof.
  intros Hwf Ho.
  destruct (sort_extensions_spec items args Hwf)
    as [(order' & E' & Hperm & Hnd & Hnames & _)|(n & E' & _)];
    rewrite E' in Ho; [|done].
  injection Ho as ->. split_and!; try done.
  intros n. by rewrite Hnames.
Qed.

(** C10. Every extension of the active set is the registered extension of
    its name and is activated by its own predicate or reached from such an
    extension through a chain of registered dependency names; so is every
    extension of the list [get_active_extensions] returns. *)
Theorem resolver_least_closure extensions args :
  wf_dict extensions →
  ∃ active,
    resolve_active extensions args = Ok active ∧
    (∀ n e, dict_get n active = Some e →
            dict_get n extensions = Some e ∧ reachable extensions args n) ∧
    ∀ order e, get_active_extensions extensions args = Ok order →
      e ∈ order →
      dict_get (get_name e) extensions = Some e ∧
      reachable extensions args (get_name e).
Proof.
  intros Hwf.
  destruct (get_active_extensions_spec extensions args Hwf)
    as (active & E & Eg & Hwa & Hs & Hc & Hseed).
  exists active. split_and!; try done.
  - intros n e Hg. apply Hs. by apply dict_get_elem.
  - intros order e Ho He. rewrite Eg in Ho.
    destruct (sort_extensions_spec active args Hwa)
      as [(order' & E' & Hperm & _)|(n & E' & _)]; rewrite E' in Ho; [|done].
    injection Ho as ->. rewrite Hperm in He.
    apply values_elem in He; [|done]. apply Hs. by apply dict_get_elem.
Qed.

End Claims.

(** ** The claims at sample inputs *)

Section Witnesses.
Import Samples.

Lemma registry_wf : wf_dict registry.
Proof.
  unfold registry, registry_of, builtin. simpl.
  repeat apply register_extension_wf. apply wf_dict_nil.
Qed.

Lemma active_home_wf : wf_dict active_home.
Proof.
  change active_home with (registry_of [basic; home; user]).
  unfold registry_of. simpl.
  repeat apply register_extension_wf. apply wf_dict_nil.
Qed.

Lemma active_cycle_wf : wf_dict active_cycle.
Proof.
  change active_cycle with (registry_of [mock_b; mock_a]).
  unfold registry_of. simpl.
  repeat apply register_extension_wf. apply wf_dict_nil.
Qed.

Lemma active_home_acyclic : acyclic active_home.
Proof.
  apply (acyclic_ranked _ home_rank).
  intros E P (e & Hg & Hp & _). unfold active_home in Hg. simpl in Hg.
  repeat case_decide; simplify_eq; simpl in Hp;
    try (by apply elem_of_nil in Hp).
  apply list_elem_of_singleton in Hp as ->. vm_compute. lia.
Qed.

Lemma sort_respects_hints_witness :
  ∃ order,
    _sort_extensions active_home args_home = Ok order ∧
    get_name <$> order ≡ₚ keys active_home ∧
    ∀ E e P, dict_get E active_home = Some e →
             P ∈ get_load_order_hints e → P ∈ keys active_home →
             strictly_before P E (get_name <$> order).
Proof.
  exact (sort_respects_hints active_home args_home active_home_wf
           active_home_acyclic).
Defined.

Lemma resolver_superset_closed_witness :
  ∃ active,
    resolve_active registry [("home", VBool true)] = Ok active ∧
    (∀ n e, dict_get n registry = Some e →
            check_args_for_activation e [("home", VBool true)] = true →
            dict_get n active = Some e) ∧
    closed registry active ∧
    ∀ order,
      get_active_extensions registry [("home", VBool true)] = Ok order →
      (∀ n e, dict_get n registry = Some e →
              check_args_for_activation e [("home", VBool true)] = true →
              e ∈ order) ∧
      (∀ e d, e ∈ order → d ∈ get_dependencies e → d ∈ keys registry →
              d ∈ get_name <$> order).
Proof.
  exact (resolver_superset_closed registry [("home", VBool true)] registry_wf).
Defined.

Lemma mutual_hints_raise_witness :
  ∃ n,
    _sort_extensions active_cycle args_cycle
    = Raise (ValueError ("Circular dependency detected involving " +:+ n)) ∧
    n ∈ keys active_cycle ∧ tc (hinted active_cycle) n n.
Proof.
  apply (mutual_hints_raise active_cycle args_cycle "a" "b" mock_a mock_b
           active_cycle_wf);
    [reflexivity | reflexivity | simpl; left | simpl; left].
Defined.

Lemma unknown_dependency_ignored_witness :
  ∃ active,
    resolve_active registry [("home", VBool true)] = Ok active ∧
    (∀ d, d ∉ keys registry → d ∉ keys active) ∧
    (∀ order d,
       get_active_extensions registry [("home", VBool true)] = Ok order →
       d ∉ keys registry → d ∉ get_name <$> order) ∧
    (∀ e, get_active_extensions registry [("home", VBool true)] = Raise e →
          ∃ n, e = circular n ∧ n ∈ keys active).
Proof.
  exact (unknown_dependency_ignored registry [("home", VBool true)]
           registry_wf).
Defined.

Lemma sort_permutation_witness :
  [basic; user; home] ≡ₚ values active_home ∧
  NoDup (get_name <$> [basic; user; home]) ∧
  ∀ n, n ∈ get_name <$> [basic; user; home] ↔ n ∈ keys active_home.
Proof.
  apply (sort_permutation active_home args_home [basic; user; home]
           active_home_wf).
  vm_compute. reflexivity.
Defined.

Lemma resolver_least_closure_witness :
  ∃ active,
    resolve_active registry [("home", VBool true)] = Ok active ∧
    (∀ n e, dict_get n active = Some e →
            dict_get n registry = Some e ∧
            reachable registry [("home", VBool true)] n) ∧
    ∀ order e,
      get_active_extensions registry [("home", VBool true)] = Ok order →
      e ∈ order →
      dict_get (get_name e) registry = Some e ∧
      reachable registry [("home", VBool true)] (get_name e).
Proof.
  exact (resolver_least_closure registry [("home", VBool true)] registry_wf).
Defined.

(** The scenarios of the test suite and of the specification. *)

Example home_pulls_user :
  get_active_extensions registry args_home = Ok [basic; user; home].
Proof. vm_compute. reflexivity. Qed.

Example cycle_names_participant :
  _sort_extensions active_cycle args_cycle
  = Raise (ValueError "Circular dependency detected involving b").
Proof. vm_compute. reflexivity. Qed.

Example hint_to_inactive_ignored :
  get_active_extensions (registry_of [volume]) [("volume", VList ["/tmp"])]
  = Ok [volume].
Proof. vm_compute. reflexivity. Qed.

Example unknown_dependency_example :
  get_active_extensions (registry_of [basic; home]) [("home", VBool true)]
  = Ok [basic; home].
Proof. vm_compute. reflexivity. Qed.

Example run_aborts_on_failed_validation :
  run backend [("image", VStr "ubuntu"); ("x", VBool true)]
    {| extensions := registry_of [basic; failing "x"; user];
       active_extensions := [] |}
  = ([EvValidate "basic"; EvValidate "x"],
     {| extensions := registry_of [basic; failing "x"; user];
        active_extensions := [basic; failing "x"] |},
     Raise (RuntimeError "Home directory does not exist")).
Proof. vm_compute. reflexivity. Qed.

Lemma run_validates_first_witness :
  (Forall (fun e => validate_environment e args_home = Ok tt)
     [basic; user; home] →
   ∃ rest,
     (run backend args_home core).1.1
     = (EvValidate <$> (get_name <$> [basic; user; home]))
         ++ EvConnect :: rest ∧
     Forall not_validate rest) ∧
  (∀ pre ext post err,
     [basic; user; home] = pre ++ ext :: post →
     Forall (fun e => validate_environment e args_home = Ok tt) pre →
     validate_environment ext args_home = Raise err →
     run backend args_home core
     = (EvValidate <$> (get_name <$> pre ++ [ext]),
        with_active core [basic; user; home], Raise err)).
Proof.
  apply (run_validates_first backend args_home core [basic; user; home]).
  vm_compute. reflexivity.
Defined.

Lemma dry_run_reports_only_witness :
  Forall report_only (cli_main backend builtin args_dry new_core).1.1 ∧
  Forall report_only (main_main backend builtin args_dry new_core).1.1 ∧
  ∀ order,
    get_active_extensions (registered builtin (extensions new_core)) args_dry
    = Ok order →
    EvPrint (LActive (get_name <$> order))
      ∈ (cli_main backend builtin args_dry new_core).1.1 ∧
    EvPrint (LActive (get_name <$> order))
      ∈ (main_main backend builtin args_dry new_core).1.1 ∧
    ∀ image,
      Forall (fun e => validate_environment e args_dry = Ok tt) order →
      dict_get "image" args_dry = Some image →
      (cli_main backend builtin args_dry new_core).1.1
      = [EvPrint (LActive (get_name <$> order))]
        ++ (EvValidate <$> (get_name <$> order))
        ++ [EvPrint LDryRun; EvPrint (LImage image)]
        ++ command_line args_dry
        ++ [EvPrint LOrderHeader]
        ++ order_lines 1 (get_name <$> order) ∧
      (cli_main backend builtin args_dry new_core).2 = Ok 0.
Proof.
  apply (dry_run_reports_only backend builtin args_dry new_core).
  reflexivity.
Defined.

Example dry_run_example :
  (cli_main backend builtin args_dry new_core).1.1
  = [EvPrint (LActive ["basic"; "user"; "home"]);
     EvValidate "basic"; EvValidate "user"; EvValidate "home";
     EvPrint LDryRun; EvPrint (LImage (VStr "ubuntu"));
     EvPrint LOrderHeader; EvPrint (LOrderItem 1 "basic");
     EvPrint (LOrderItem 2 "user"); EvPrint (LOrderItem 3 "home")].
Proof. vm_compute. reflexivity. Qed.



Example build_and_run_default_shell :
  (build_and_run backend args_plain (with_active core [basic])).1.1
  = [EvConnect; EvFrom (VStr "ubuntu"); EvSetup "basic" ["from"];
     EvWithExec (VList ["/bin/bash"]) ["from"; "basic"];
     EvSync ["from"; "basic"; "exec"]; EvDisconnect].
Proof. vm_compute. reflexivity. Qed.

(** C7 as stated fails: the second registration under ["a"] raises nothing
    and takes the place of the first. *)
Lemma duplicate_registration_counterexample :
  get_name mock_a' = get_name mock_a ∧
  mock_a' ≠ mock_a ∧
  (do_register mock_a'
     {| extensions := register_extension mock_a []; active_extensions := [] |}).2
  = Ok tt ∧
  dict_get "a"
    (extensions
       (do_register mock_a'
          {| extensions := register_extension mock_a [];
             active_extensions := [] |}).1.2)
  = Some mock_a'.
Proof.
  split_and!; try reflexivity.
  intros H. apply (f_equal get_load_order_hints) in H. discriminate.
Qed.

Lemma register_overwrites_witness :
  (do_register mock_a' core_ab).2 = Ok tt ∧
  (do_register mock_a' core_ab).1.1 = [] ∧
  dict_get (get_name mock_a') (extensions (do_register mock_a' core_ab).1.2)
  = Some mock_a' ∧
  keys (extensions (do_register mock_a' core_ab).1.2)
  = keys (extensions core_ab) ∧
  ∀ k, k ≠ get_name mock_a' →
       dict_get k (extensions (do_register mock_a' core_ab).1.2)
       = dict_get k (extensions core_ab).
Proof.
  apply (register_overwrites mock_a' core_ab).
  simpl. by left.
Defined.

End Witnesses.

(** * Further properties of the resolver and the scheduler *)

Section MoreResolution.
Context {Container : Type}.
Implicit Types (extensions items active : dict (Extension Container)).
Implicit Types (args : Args).

Lemma keys_dict_get {V} (d : dict V) k :
  k ∈ keys d → ∃ v, dict_get k d = Some v.
Proof.
  intros Hk. destruct (dict_get k d) as [v|] eqn:E; [by exists v|].
  by apply dict_get_None in E.
Qed.

(** X1. The active set is exactly the set of names reachable from the
    predicate-activated extensions through registered dependencies. *)
Theorem active_iff_reachable extensions args :
  wf_dict extensions →
  ∃ active,
    resolve_active extensions args = Ok active ∧
    ∀ n, n ∈ keys active ↔ reachable extensions args n.
Proof.
  intros Hwf.
  destruct (get_active_extensions_spec extensions args Hwf)
    as (active & E & _ & Hwa & Hs & Hc & Hseed).
  exists active. split; [done|]. intros n. split.
  - intros Hn. apply keys_dict_get in Hn as [e He].
    apply dict_get_elem in He. by apply Hs in He as [_ ?].
  - intros (s & (e & Hg & Hp) & Hpath).
    refine (rtc_ind_r (fun n => n ∈ keys active) s _ _ n Hpath).
    + eapply dict_get_key. by apply Hseed.
    + intros y z _ (e' & Hy & Hz & Hk) IH.
      apply keys_dict_get in IH as [e'' He''].
      assert (e'' = e') as ->.
      { apply dict_get_elem, Hs in He'' as [He'' _]. congruence. }
      by eapply Hc.
Qed.

Lemma hinted_before items (names : list string) :
  NoDup names →
  (∀ E P, hinted items E P → strictly_before P E names) →
  ∀ a b, tc (hinted items) a b → strictly_before b a names.
Proof.
  intros Hnd Hord a b Htc.
  induction Htc as [a b H|a b c H _ IH]; [by apply Hord|].
  apply Hord in H as (i & j & Hi & Hj & Hij).
  destruct IH as (i' & j' & Hi' & Hj' & Hij').
  pose proof (NoDup_lookup _ _ _ _ Hnd Hi Hj').
  exists i', j. split_and!; [done..|lia].
Qed.

(** X2. The scheduler returns a list exactly when the hints among active
    extensions have no cycle; when they have one, it raises the
    circular-dependency error, naming an active extension that lies on a
    cycle. *)
Theorem sort_ok_iff_acyclic items args :
  wf_dict items →
  ((∃ order, _sort_extensions items args = Ok order) ↔ acyclic items) ∧
  (¬ acyclic items →
   ∃ n, _sort_extensions items args
        = Raise (ValueError ("Circular dependency detected involving " +:+ n))
        ∧ n ∈ keys items ∧ tc (hinted items) n n).
Proof.
  intros Hwf.
  destruct (sort_extensions_spec items args Hwf)
    as [(order & E & _ & Hnd & _ & Hord)|(n & E & Hcyc)].
  - assert (acyclic items) as Hac.
    { intros n Hn.
      destruct (hinted_before items _ Hnd Hord n n Hn)
        as (i & j & Hi & Hj & Hij).
      pose proof (NoDup_lookup _ _ _ _ Hnd Hi Hj). lia. }
    split; [split; [done | by exists order] | done].
  - split.
    + split.
      * intros [order Ho]. by rewrite E in Ho.
      * intros Hac. by destruct (Hac n).
    + intros _. exists n. split_and!; [exact E | | done].
      assert (∀ a b, tc (hinted items) a b → a ∈ keys items) as Hk.
      { intros a b [? ? (e & He & _)|? ? ? (e & He & _) _];
          by eapply dict_get_key. }
      by eapply Hk.
Qed.




Lemma registered_fresh (l : list (Extension Container)) d :
  NoDup (get_name <$> l) → (∀ n, n ∈ get_name <$> l → n ∉ keys d) →
  registered l d = d ++ ((fun e => (get_name e, e)) <$> l).
Proof.
  revert d. induction l as [|e l IH]; intros d Hnd Hfresh; simpl.
  - by rewrite app_nil_r.
  - apply NoDup_cons in Hnd as [He Hnd].
    unfold register_extension. rewrite dict_set_new.
    2:{ apply Hfresh. by apply elem_of_cons; left. }
    rewrite IH; [by rewrite <- app_assoc|done|].
    intros n Hn. unfold keys. rewrite fmap_app. simpl.
    intros Hin. apply elem_of_app in Hin as [Hin|Hin].
    + revert Hin. apply Hfresh. by apply elem_of_cons; right.
    + apply list_elem_of_singleton in Hin as ->. done.
Qed.

(** X4. Registering extensions with distinct names into an empty registry
    keeps them in registration order, each under its own name. *)
Theorem registered_in_order (l : list (Extension Container)) :
  NoDup (get_name <$> l) →
  registered l [] = (fun e => (get_name e, e)) <$> l ∧
  keys (registered l []) = get_name <$> l ∧
  values (registered l []) = l.
Proof.
  intros Hnd. rewrite registered_fresh; [|done|].
  - simpl. unfold keys, values. rewrite <- !list_fmap_compose.
    split_and!; [done|done|]. by rewrite list_fmap_id.
  - intros n _ Hin. by apply elem_of_nil in Hin.
Qed.

End MoreResolution.

(** * Further properties of the pipeline *)

Section MoreRunner.
Context {Container : Type} (backend : Backend Container).
Implicit Types (s : Core Container) (args : Args).
Implicit Types (exts order : list (Extension Container)).

Lemma bind_eq {A B} (m : M A) (k : A → M B) s t s' o :
  m s = (t, s', o) →
  (x ← m; k x) s
  = match o with
    | Ok a => (t ++ (k a s').1.1, (k a s').1.2, (k a s').2)
    | Raise e => (t, s', Raise e)
    | Diverge => (t, s', Diverge)
    end.
Proof.
  intros E. unfold mbind, M_bind. rewrite E.
  destruct o as [a| |]; [|done..]. by destruct (k a s') as [[??]?].
Qed.

Lemma validate_all_eq exts args s :
  validate_all exts args s
  = (validate_events exts args, s, validated exts args).
Proof.
  unfold validated. induction exts as [|ext exts IH]; [done|].
  cbn [validate_all validate_events].
  rewrite bind_emit, for_each_cons.
  rewrite (bind_eq _ _ s [] s (validate_environment ext args) eq_refl).
  destruct (validate_environment ext args) as [[]| |]; [|done..].
  by rewrite IH.
Qed.

Lemma apply_extensions_eq exts c args s :
  apply_extensions exts c args s
  = (setup_events exts c args, s, mutated exts c args).
Proof.
  unfold mutated. revert c. induction exts as [|ext exts IH]; intros c;
    [done|].
  cbn [apply_extensions setup_events].
  rewrite bind_emit, for_each_cons.
  rewrite (bind_eq _ _ s [] s (setup_container ext c args) eq_refl).
  destruct (setup_container ext c args) as [c'| |]; [|done..].
  by rewrite IH.
Qed.

Lemma validated_Ok exts args :
  validated exts args = Ok tt ↔
  Forall (fun e => validate_environment e args = Ok tt) exts.
Proof.
  unfold validated. induction exts as [|ext exts IH].
  - split; [constructor | done].
  - rewrite for_each_cons, Forall_cons.
    destruct (validate_environment ext args) as [[]| |]; naive_solver.
Qed.

Lemma validate_events_Ok exts args :
  Forall (fun e => validate_environment e args = Ok tt) exts →
  validate_events exts args = EvValidate <$> (get_name <$> exts).
Proof.
  induction 1 as [|ext exts Hv _ IH]; simpl; [done|]. by rewrite Hv, IH.
Qed.

Lemma args_item_command args :
  truthy (args_get "command" args) = true →
  args_item "command" args = Ok (run_command args).
Proof.
  intros Ht. unfold run_command. rewrite Ht. by apply args_item_truthy.
Qed.

(** The tail of [run] inside the connection. *)
Lemma run_exec_eq args s final :
  (if truthy (args_get "command" args) then
     command ← lift (args_item "command" args);
     emit (EvWithExec command final);;
     emit (EvStdout (with_exec backend command final));;
     lift (stdout backend (with_exec backend command final))
   else
     emit (EvWithExec
             (VList ["/bin/bash"; "-c"; "echo 'No command specified'"])
             final);;
     emit (EvStdout
             (with_exec backend
                (VList ["/bin/bash"; "-c"; "echo 'No command specified'"])
                final));;
     lift (stdout backend
             (with_exec backend
                (VList ["/bin/bash"; "-c"; "echo 'No command specified'"])
                final))) s
  = ([EvWithExec (run_command args) final;
      EvStdout (with_exec backend (run_command args) final)], s,
     stdout backend (with_exec backend (run_command args) final)).
Proof.
  destruct (truthy (args_get "command" args)) eqn:Ht.
  - rewrite (args_item_command _ Ht), bind_lift_Ok, !bind_emit. done.
  - unfold run_command. rewrite Ht, !bind_emit. done.
Qed.

Lemma build_exec_eq args s final :
  (if truthy (args_get "command" args) then
     command ← lift (args_item "command" args);
     emit (EvWithExec command final);;
     emit (EvSync (with_exec backend command final));;
     lift (sync backend (with_exec backend command final))
   else
     emit (EvWithExec (VList ["/bin/bash"]) final);;
     emit (EvSync (with_exec backend (VList ["/bin/bash"]) final));;
     lift (sync backend (with_exec backend (VList ["/bin/bash"]) final))) s
  = ([EvWithExec (build_command args) final;
      EvSync (with_exec backend (build_command args) final)], s,
     sync backend (with_exec backend (build_command args) final)).
Proof.
  destruct (truthy (args_get "command" args)) eqn:Ht.
  - assert (args_item "command" args = Ok (build_command args)) as ->.
    { unfold build_command. rewrite Ht. by apply args_item_truthy. }
    rewrite bind_lift_Ok, !bind_emit. done.
  - unfold build_command. rewrite Ht, !bind_emit. done.
Qed.

Lemma obind_Ok {A B} (a : A) (k : A → outcome B) : (Ok a ≫= k) = k a.
Proof. reflexivity. Qed.

Lemma obind_Raise {A B} e (k : A → outcome B) : (Raise e ≫= k) = Raise e.
Proof. reflexivity. Qed.

Lemma obind_Diverge {A B} (k : A → outcome B) : (Diverge ≫= k) = Diverge.
Proof. reflexivity. Qed.

Lemma closing_eq {A} (m : M A) s t s' o :
  m s = (t, s', o) →
  closing m s
  = (t ++ match o with Diverge => [] | _ => [EvDisconnect] end, s', o).
Proof.
  intros E. unfold closing. rewrite E.
  destruct o; [done..|]. by rewrite app_nil_r.
Qed.

Lemma with_connection_eq {A} (m : M A) s t o :
  m s = (t, s, o) →
  with_connection backend m s
  = (connection_events backend t o, s,
     match connect backend with Ok _ => o | Raise e => Raise e
                              | Diverge => Diverge end).
Proof.
  intros E. unfold with_connection, connection_events.
  rewrite bind_emit.
  rewrite (bind_eq _ _ s [] s (connect backend) eq_refl).
  destruct (connect backend) as [[]| |]; [|done..].
  by rewrite (closing_eq _ _ _ _ _ E).
Qed.

Lemma base_container_eq' args s :
  base_container backend args s
  = (match args_item "image" args with Ok image => [EvFrom image] | _ => [] end,
     s,
     match args_item "image" args with
     | Ok image => Ok (from_ backend image)
     | Raise e => Raise e
     | Diverge => Diverge
     end).
Proof.
  unfold base_container.
  rewrite (bind_eq _ _ s [] s (args_item "image" args) eq_refl).
  destruct (args_item "image" args); [|done..]. by rewrite bind_emit.
Qed.

(** The body of the [async with] block of [run] and [build_and_run]. *)
Lemma session_eq {X} (exec : Container → M X)
    (exec_events : Container → list (Event Container))
    (exec_result : Container → outcome X) args s :
  (∀ final s', exec final s' = (exec_events final, s', exec_result final)) →
  (container ← base_container backend args;
   self ← get_core;
   container ← apply_extensions (active_extensions self) container args;
   exec container) s
  = (session_events backend exec_events (active_extensions s) args, s,
     session_result backend exec_result (active_extensions s) args).
Proof.
  intros Hexec.
  rewrite (bind_eq _ _ _ _ _ _ (base_container_eq' args s)).
  unfold session_events, session_result.
  destruct (args_item "image" args) as [image| |]; [|reflexivity..].
  rewrite bind_get_core.
  rewrite (bind_eq _ _ _ _ _ _ (apply_extensions_eq _ _ _ _)).
  unfold mbind at 1 2, outcome_bind.
  destruct (mutated (active_extensions s) (from_ backend image) args)
    as [final| |]; [|rewrite app_nil_r; reflexivity..].
  rewrite Hexec. reflexivity.
Qed.

(** What [build_and_run] does, call by call. *)
Lemma build_and_run_eq args s :
  build_and_run backend args s
  = (build_events backend args (active_extensions s), s,
     build_result backend args (active_extensions s)).
Proof.
  unfold build_and_run, build_events, build_result.
  erewrite with_connection_eq;
    [|apply session_eq; intros; apply build_exec_eq].
  unfold session_result. by destruct (connect backend) as [[]| |].
Qed.

(** What [run] does, call by call. *)
Lemma run_eq args s :
  run backend args s
  = (run_events backend args (extensions s),
     match get_active_extensions (extensions s) args with
     | Ok order => with_active s order
     | _ => s
     end,
     run_result backend args (extensions s)).
Proof.
  unfold run, run_events, run_result. rewrite bind_get_core.
  rewrite (bind_eq _ _ s [] s (get_active_extensions (extensions s) args)
             eq_refl).
  destruct (get_active_extensions (extensions s) args) as [order| |];
    [|done..].
  rewrite bind_set_active, bind_get_core, obind_Ok.
  rewrite (bind_eq _ _ _ _ _ _ (validate_all_eq _ _ _)).
  simpl active_extensions.
  destruct (validated order args) as [[]| |];
    [|rewrite app_nil_r; reflexivity..].
  erewrite with_connection_eq;
    [|apply session_eq; intros; apply run_exec_eq].
  rewrite obind_Ok. simpl. unfold session_result.
  by destruct (connect backend) as [[]| |].
Qed.

Lemma args_item_Some args k v :
  args_item k args = Ok v ↔ dict_get k args = Some v.
Proof. unfold args_item. destruct (dict_get k args); naive_solver. Qed.

Lemma mutated_app exts1 exts2 c args :
  mutated (exts1 ++ exts2) c args
  = c' ← mutated exts1 c args; mutated exts2 c' args.
Proof.
  unfold mutated. revert c. induction exts1 as [|e exts1 IH]; intros c;
    [done|].
  rewrite <- app_comm_cons, !for_each_cons.
  destruct (setup_container e c args); [|done..]. apply IH.
Qed.

Lemma setup_events_app exts1 exts2 c args :
  setup_events (exts1 ++ exts2) c args
  = setup_events exts1 c args
    ++ match mutated exts1 c args with
       | Ok c' => setup_events exts2 c' args
       | _ => []
       end.
Proof.
  unfold mutated. revert c. induction exts1 as [|e exts1 IH]; intros c;
    [done|].
  rewrite <- app_comm_cons. cbn [setup_events]. rewrite for_each_cons.
  destruct (setup_container e c args); [|by rewrite app_nil_r..].
  by rewrite IH.
Qed.

(** X6. For options as argparse stores them, [run] returns the backend's
    output exactly when the order resolves,
    every validation returns, the connection opens, an image is given,
    every mutation returns and the backend returns; the output is that of
    the command run on the last mutation's container. *)
Theorem run_returns_iff args s out :
  typed_args args = true →
  (run backend args s).2 = Ok out ↔
  ∃ order image final,
    get_active_extensions (extensions s) args = Ok order ∧
    Forall (fun e => validate_environment e args = Ok tt) order ∧
    connect backend = Ok tt ∧
    dict_get "image" args = Some image ∧
    mutated order (from_ backend image) args = Ok final ∧
    stdout backend (with_exec backend (run_command args) final) = Ok out.
Proof.
  intros _. rewrite run_eq. simpl. unfold run_result. split.
  - destruct (get_active_extensions (extensions s) args) as [order| |];
      [|done..].
    rewrite obind_Ok.
    destruct (validated order args) as [[]| |] eqn:Hv; [|done..].
    rewrite obind_Ok.
    destruct (connect backend) as [[]| |]; [|done..]. rewrite obind_Ok.
    destruct (args_item "image" args) as [image| |] eqn:Hi; [|done..].
    rewrite obind_Ok.
    destruct (mutated order (from_ backend image) args) as [final| |] eqn:Hm;
      [|done..].
    rewrite obind_Ok. intros Hout. exists order, image, final.
    split_and!; try done; [by apply validated_Ok | by apply args_item_Some].
  - intros (order & image & final & -> & Hv & -> & Hi & Hm & Hout).
    apply validated_Ok in Hv. apply args_item_Some in Hi.
    by rewrite obind_Ok, Hv, !obind_Ok, Hi, obind_Ok, Hm, obind_Ok.
Qed.

(** X7. With no ['image'] entry [run] raises [KeyError] right after opening
    the connection: it closes the connection and has built no request. *)
Theorem run_missing_image args s order :
  get_active_extensions (extensions s) args = Ok order →
  Forall (fun e => validate_environment e args = Ok tt) order →
  connect backend = Ok tt →
  dict_get "image" args = None →
  run backend args s
  = ((EvValidate <$> (get_name <$> order)) ++ [EvConnect; EvDisconnect],
     with_active s order, Raise (KeyError "image")).
Proof.
  intros Hget Hv Hc Hi. rewrite run_eq. unfold run_events, run_result.
  rewrite Hget, obind_Ok, (validate_events_Ok _ _ Hv).
  apply validated_Ok in Hv. rewrite Hv, obind_Ok.
  unfold connection_events, session_events, session_result, args_item.
  by rewrite Hc, Hi.
Qed.

(** X8. When the connection cannot be opened [run] raises the backend's error
    after the validations and touches nothing else. *)
Theorem run_connect_failure args s order err :
  get_active_extensions (extensions s) args = Ok order →
  Forall (fun e => validate_environment e args = Ok tt) order →
  connect backend = Raise err →
  run backend args s
  = ((EvValidate <$> (get_name <$> order)) ++ [EvConnect],
     with_active s order, Raise err).
Proof.
  intros Hget Hv Hc. rewrite run_eq. unfold run_events, run_result.
  rewrite Hget, obind_Ok, (validate_events_Ok _ _ Hv).
  apply validated_Ok in Hv. rewrite Hv, obind_Ok.
  unfold connection_events. by rewrite Hc.
Qed.

(** X9. A mutation that raises ends [run]: the extensions after it are not
    applied, no command is handed to the backend, the connection is
    closed and the error is the mutation's. *)
Theorem run_mutation_failure args s pre ext post image c err :
  typed_args args = true →
  get_active_extensions (extensions s) args = Ok (pre ++ ext :: post) →
  Forall (fun e => validate_environment e args = Ok tt)
    (pre ++ ext :: post) →
  connect backend = Ok tt →
  dict_get "image" args = Some image →
  mutated pre (from_ backend image) args = Ok c →
  setup_container ext c args = Raise err →
  run backend args s
  = ((EvValidate <$> (get_name <$> pre ++ ext :: post))
       ++ [EvConnect; EvFrom image]
       ++ setup_events pre (from_ backend image) args
       ++ [EvSetup (get_name ext) c; EvDisconnect],
     with_active s (pre ++ ext :: post), Raise err).
Proof.
  intros _ Hget Hv Hc Hi Hpre Herr. rewrite run_eq.
  unfold run_events, run_result.
  rewrite Hget, obind_Ok, (validate_events_Ok _ _ Hv).
  apply validated_Ok in Hv. rewrite Hv, obind_Ok.
  apply args_item_Some in Hi.
  assert (mutated (pre ++ ext :: post) (from_ backend image) args
          = Raise err) as Hm.
  { rewrite mutated_app, Hpre, obind_Ok. unfold mutated.
    by rewrite for_each_cons, Herr. }
  unfold connection_events, session_events, session_result.
  rewrite Hc, Hi, !obind_Ok, Hm, setup_events_app, Hpre. simpl.
  rewrite Herr. rewrite app_nil_r. by rewrite <- !app_assoc.
Qed.

Lemma build_result_noop args ext exts1 exts2 :
  is_noop ext args →
  build_result backend args (exts1 ++ ext :: exts2)
  = build_result backend args (exts1 ++ exts2).
Proof.
  intros Hnoop. unfold build_result.
  destruct (connect backend) as [[]| |]; [|done..]. rewrite !obind_Ok.
  destruct (args_item "image" args) as [image| |]; [|done..].
  rewrite !obind_Ok, !mutated_app.
  destruct (mutated exts1 (from_ backend image) args) as [c| |]; [|done..].
  rewrite !obind_Ok. unfold mutated at 1.
  by rewrite for_each_cons, Hnoop.
Qed.

(** X10. An extension whose mutation returns its input unchanged never
    changes how [build_and_run] ends, wherever it stands in the order. *)
Theorem noop_extension_irrelevant args s ext exts1 exts2 :
  is_noop ext args →
  (build_and_run backend args (with_active s (exts1 ++ ext :: exts2))).2
  = (build_and_run backend args (with_active s (exts1 ++ exts2))).2.
Proof.
  intros Hnoop. rewrite !build_and_run_eq.
  cbn [snd active_extensions with_active].
  by apply build_result_noop.
Qed.

End MoreRunner.

(** * Further properties of the entry points *)

Section MoreEntryPoints.
Context {Container : Type} (backend : Backend Container).
Context (builtin : list (Extension Container)) (args : Args).
Context (s : Core Container).
Implicit Types (order : list (Extension Container)).

Lemma try_except_eq {A} (m : M A) (h : exn → M A) (s0 : Core Container)
    t s' o :
  m s0 = (t, s', o) →
  try_except m h s0
  = match o with
    | Raise e => (t ++ (h e s').1.1, (h e s').1.2, (h e s').2)
    | _ => (t, s', o)
    end.
Proof.
  intros E. unfold try_except. rewrite E.
  destruct o as [|e|]; [done| |done]. by destruct (h e s') as [[??]?].
Qed.

Lemma validate_or_return_Raise exts pre ext post err (s0 : Core Container) :
  exts = pre ++ ext :: post →
  Forall (fun e => validate_environment e args = Ok tt) pre →
  validate_environment ext args = Raise err →
  validate_or_return exts args s0
  = ((EvValidate <$> (get_name <$> pre ++ [ext]))
       ++ [EvPrint (LValidateError (get_name ext) err)],
     s0, Ok (Some 1)).
Proof.
  intros -> Hpre Herr. induction Hpre as [|e pre Hv _ IH].
  - cbn [app validate_or_return].
    erewrite bind_Ok; cycle 1.
    { unfold try_except. rewrite bind_emit.
      unfold mbind, M_bind, lift, print, emit. rewrite Herr. reflexivity. }
    reflexivity.
  - rewrite <- !app_comm_cons. cbn [validate_or_return].
    erewrite bind_Ok; cycle 1.
    { unfold try_except. rewrite bind_emit.
      unfold mbind, M_bind, lift. rewrite Hv. reflexivity. }
    simpl. by rewrite IH.
Qed.

(** The registry and core object the entry points work on. *)
Lemma register_all_eq' :
  register_all builtin s
  = ([], {| extensions := registered builtin (extensions s);
            active_extensions := active_extensions s |}, Ok tt).
Proof. apply register_all_eq. Qed.

(** X11. When the hints of the active set have a cycle, [cli.py] prints the
    error and exits with status 1, while [main.py] lets the exception
    escape; neither validates anything nor touches the backend. *)
Theorem resolution_error_at_entry e :
  get_active_extensions (registered builtin (extensions s)) args = Raise e →
  cli_main backend builtin args s
  = ([EvPrint (LResolveError e)],
     {| extensions := registered builtin (extensions s);
        active_extensions := active_extensions s |}, Ok 1) ∧
  main_main backend builtin args s
  = ([],
     {| extensions := registered builtin (extensions s);
        active_extensions := active_extensions s |}, Raise e).
Proof.
  intros Hget. split.
  - unfold cli_main. rewrite (bind_Ok _ _ _ _ _ _ register_all_eq').
    erewrite bind_Ok; cycle 1.
    { erewrite try_except_eq; cycle 1.
      { rewrite bind_get_core. simpl. rewrite Hget. reflexivity. }
      unfold print. rewrite bind_emit. reflexivity. }
    reflexivity.
  - unfold main_main. rewrite (bind_Ok _ _ _ _ _ _ register_all_eq').
    rewrite bind_get_core. simpl. by rewrite Hget.
Qed.

Context (order : list (Extension Container)).
Context
  (Hget : get_active_extensions (registered builtin (extensions s)) args
          = Ok order).

Lemma cli_resolve_eq :
  try_except
    (core ← get_core;
     active ← lift (get_active_extensions (extensions core) args);
     set_active active;;
     print (LActive (get_name <$> active));;
     mret None)
    (fun e => print (LResolveError e);; mret (Some 1))
    {| extensions := registered builtin (extensions s);
       active_extensions := active_extensions s |}
  = ([EvPrint (LActive (get_name <$> order))],
     resolved_core builtin s order, Ok (None : option nat)).
Proof.
  erewrite try_except_eq; cycle 1.
  { rewrite bind_get_core. simpl. rewrite Hget.
    rewrite bind_lift_Ok, bind_set_active. unfold print.
    rewrite bind_emit. reflexivity. }
  reflexivity.
Qed.

(** X12. A validation that raises in an entry point is caught: [cli.py] and
    [main.py] print the extension's name with the error and exit with
    status 1, after the validations up to that one and nothing else. *)
Theorem validation_error_at_entry pre ext post err :
  order = pre ++ ext :: post →
  Forall (fun e => validate_environment e args = Ok tt) pre →
  validate_environment ext args = Raise err →
  cli_main backend builtin args s
  = (EvPrint (LActive (get_name <$> order))
       :: (EvValidate <$> (get_name <$> pre ++ [ext]))
       ++ [EvPrint (LValidateError (get_name ext) err)],
     resolved_core builtin s order, Ok 1) ∧
  main_main backend builtin args s
  = (EvPrint (LActive (get_name <$> order))
       :: (EvValidate <$> (get_name <$> pre ++ [ext]))
       ++ [EvPrint (LValidateError (get_name ext) err)],
     resolved_core builtin s order, Ok 1).
Proof.
  intros Hord Hpre Herr. split.
  - unfold cli_main. rewrite (bind_Ok _ _ _ _ _ _ register_all_eq').
    rewrite (bind_Ok _ _ _ _ _ _ cli_resolve_eq). simpl.
    rewrite bind_get_core. simpl.
    rewrite (bind_Ok _ _ _ _ _ _
               (validate_or_return_Raise _ pre ext post err _ Hord Hpre
                  Herr)).
    simpl. by rewrite app_nil_r.
  - unfold main_main. rewrite (bind_Ok _ _ _ _ _ _ register_all_eq').
    rewrite bind_get_core. simpl. rewrite Hget.
    rewrite bind_lift_Ok, bind_set_active. unfold print.
    rewrite bind_emit, bind_get_core. simpl.
    rewrite (bind_Ok _ _ _ _ _ _
               (validate_or_return_Raise _ pre ext post err _ Hord Hpre
                  Herr)).
    simpl. by rewrite app_nil_r.
Qed.

Context (Hvalid : Forall (fun e => validate_environment e args = Ok tt) order).
Context (Hdry : truthy (args_get "dry_run" args) = false).

(** X13. Outside dry-run [cli.py] validates every active extension and then
    calls [run], which validates them all a second time before it opens
    the connection. The exit status is 0, with the output printed, when
    [run] returns, and 1, with the error printed, when [run] raises. *)
Theorem cli_main_run :
  typed_args args = true →
  cli_main backend builtin args s
  = (EvPrint (LActive (get_name <$> order))
       :: (EvValidate <$> (get_name <$> order))
       ++ run_events backend args (registered builtin (extensions s))
       ++ match run_result backend args
                  (registered builtin (extensions s)) with
          | Ok out => [EvPrint (LResult out)]
          | Raise e => [EvPrint (LRunError e)]
          | Diverge => []
          end,
     resolved_core builtin s order,
     match run_result backend args (registered builtin (extensions s)) with
     | Ok _ => Ok 0
     | Raise _ => Ok 1
     | Diverge => Diverge
     end) ∧
  ∃ rest,
    run_events backend args (registered builtin (extensions s))
    = (EvValidate <$> (get_name <$> order)) ++ EvConnect :: rest.
Proof.
  intros _. split.
  - unfold cli_main. rewrite (bind_Ok _ _ _ _ _ _ register_all_eq').
    rewrite (bind_Ok _ _ _ _ _ _ cli_resolve_eq). simpl.
    rewrite bind_get_core. simpl.
    rewrite (bind_Ok _ _ _ _ _ _ (validate_or_return_Ok _ _ _ Hvalid)).
    simpl. rewrite Hdry.
    pose proof (run_eq backend args (resolved_core builtin s order)) as Hrun.
    simpl in Hrun. rewrite Hget in Hrun.
    unfold try_except. rewrite (bind_eq _ _ _ _ _ _ Hrun).
    destruct (run_result backend args (registered builtin (extensions s)))
      as [out|e|]; simpl; rewrite ?app_nil_r; reflexivity.
  - unfold run_events. rewrite Hget, (validate_events_Ok _ _ Hvalid).
    apply validated_Ok in Hvalid. rewrite Hvalid.
    unfold connection_events. eexists. reflexivity.
Qed.

(** X14. Outside dry-run [main.py] validates once and calls [build_and_run];
    it exits with status 0 when that returns and prints the error and
    exits with status 1 when it raises. The result is not printed. *)
Theorem main_main_run :
  typed_args args = true →
  main_main backend builtin args s
  = (EvPrint (LActive (get_name <$> order))
       :: (EvValidate <$> (get_name <$> order))
       ++ build_events backend args order
       ++ match build_result backend args order with
          | Raise e => [EvPrint (LRunError e)]
          | _ => []
          end,
     resolved_core builtin s order,
     match build_result backend args order with
     | Ok _ => Ok 0
     | Raise _ => Ok 1
     | Diverge => Diverge
     end).
Proof.
  intros _.
  unfold main_main. rewrite (bind_Ok _ _ _ _ _ _ register_all_eq').
  rewrite bind_get_core. simpl. rewrite Hget.
  rewrite bind_lift_Ok, bind_set_active. unfold print.
  rewrite bind_emit, bind_get_core. simpl.
  rewrite (bind_Ok _ _ _ _ _ _ (validate_or_return_Ok _ _ _ Hvalid)).
  simpl. rewrite Hdry.
  pose proof (build_and_run_eq backend args (resolved_core builtin s order))
    as Hrun.
  simpl in Hrun.
  unfold try_except. rewrite (bind_eq _ _ _ _ _ _ Hrun).
  destruct (build_result backend args order) as [out|e|]; simpl;
    rewrite ?app_nil_r; reflexivity.
Qed.

End MoreEntryPoints.

(** ** Exceptions at the entry points *)

Section NeverRaises.
Context {Container : Type} (backend : Backend Container).
Implicit Types (args : Args).

Lemma nr_ret {A} (a : A) : never_raises (mret a : @M Container A).
Proof. by intros s e. Qed.

Lemma nr_bind {A B} (m : @M Container A) (k : A → M B) :
  never_raises m → (∀ a, never_raises (k a)) → never_raises (x ← m; k x).
Proof.
  intros Hm Hk s e. unfold mbind, M_bind. specialize (Hm s e).
  destruct (m s) as [[t1 s1] [a|e'|]]; simpl in *.
  - specialize (Hk a s1 e). by destruct (k a s1) as [[??]?].
  - intros [= ->]. by apply Hm.
  - done.
Qed.

Lemma nr_emit (ev : Event Container) : never_raises (emit ev).
Proof. by intros s e. Qed.

Lemma nr_get_core : never_raises (@get_core Container).
Proof. by intros s e. Qed.

Lemma nr_try_except {A} (m : @M Container A) (h : exn → M A) :
  (∀ e, never_raises (h e)) → never_raises (try_except m h).
Proof.
  intros Hh s e. unfold try_except.
  destruct (m s) as [[t1 s1] [a|e'|]]; simpl; [done| |done].
  specialize (Hh e' s1 e). by destruct (h e' s1) as [[??]?].
Qed.

Lemma nr_register_all (builtin : list (Extension Container)) :
  never_raises (register_all builtin).
Proof. intros s e. by rewrite register_all_eq. Qed.

Lemma nr_validate_or_return exts args :
  never_raises (@validate_or_return Container exts args).
Proof.
  induction exts as [|ext exts IH]; simpl; [apply nr_ret|].
  apply nr_bind.
  - apply nr_try_except. intros e.
    apply nr_bind; [apply nr_emit | intros _; apply nr_ret].
  - intros [code|]; [apply nr_ret | apply IH].
Qed.

(** X15. [cli.py] catches every exception of resolution, validation and
    execution: outside dry-run its [main] returns an exit status and
    raises nothing. *)
Theorem cli_main_never_raises builtin args :
  truthy (args_get "dry_run" args) = false →
  never_raises (cli_main backend builtin args).
Proof.
  intros Hcase. unfold cli_main.
  apply nr_bind; [apply nr_register_all|]. intros _.
  apply nr_bind.
  { apply nr_try_except. intros e.
    apply nr_bind; [apply nr_emit | intros _; apply nr_ret]. }
  intros [code|]; [apply nr_ret|].
  apply nr_bind; [apply nr_get_core|]. intros core.
  apply nr_bind; [apply nr_validate_or_return|].
  intros [code|]; [apply nr_ret|].
  rewrite Hcase. apply nr_try_except. intros e.
  apply nr_bind; [apply nr_emit | intros _; apply nr_ret].
Qed.

(** X16. [core.py]'s own [main] runs with the basic extension alone,
    whatever the options (taken as argparse stores them): it prints and validates it, and then either reports the
    dry run or hands [build_and_run] the single no-op mutation, so that the
    command runs on the base image as [from_] returned it. *)
Theorem core_main_basic_only args :
  typed_args args = true →
  core_main backend args new_core
  = (EvPrint (LActive ["basic"]) :: EvValidate "basic"
       :: (if truthy (args_get "dry_run" args) then [EvPrint LDryRun]
           else build_events backend args [BasicExtension]),
     {| extensions := [("basic", BasicExtension)];
        active_extensions := [BasicExtension] |},
     if truthy (args_get "dry_run" args) then Ok tt
     else build_result backend args [BasicExtension] ≫= fun _ => Ok tt) ∧
  ∀ image,
    dict_get "image" args = Some image → connect backend = Ok tt →
    build_events backend args [BasicExtension]
    = EvConnect :: EvFrom image :: EvSetup "basic" (from_ backend image)
        :: EvWithExec (build_command args) (from_ backend image)
        :: EvSync (with_exec backend (build_command args)
                     (from_ backend image))
        :: match sync backend
                   (with_exec backend (build_command args)
                      (from_ backend image)) with
           | Diverge => []
           | _ => [EvDisconnect]
           end.
Proof.
  intros _. split.
  - unfold core_main.
    assert (get_active_extensions [("basic", @BasicExtension Container)] args
            = Ok [BasicExtension]) as Hget by (vm_compute; reflexivity).
    erewrite bind_Ok; [|reflexivity]. rewrite bind_get_core.
    simpl extensions. unfold register_extension. simpl dict_set.
    rewrite Hget, bind_lift_Ok, bind_set_active. unfold print.
    rewrite bind_emit, bind_get_core. simpl active_extensions.
    rewrite (bind_eq _ _ _ _ _ _ (validate_all_eq _ _ _)). simpl.
    destruct (truthy (args_get "dry_run" args)); [reflexivity|].
    rewrite (bind_eq _ _ _ _ _ _ (build_and_run_eq backend args _)). simpl.
    destruct (build_result backend args [BasicExtension]);
      simpl; rewrite ?app_nil_r; reflexivity.
  - intros image Hi Hc.
    unfold build_events, connection_events, session_events, session_result,
      args_item.
    rewrite Hc, Hi. simpl.
    by destruct (sync backend _).
Qed.

End NeverRaises.

(** * Properties of the built-in extensions *)

Section ExtensionFacts.
Context {Container : Type} (backend : Backend Container).
Implicit Types (args : Args) (s : Core Container).
Implicit Types (extensions : dict (Extension Container)).

Lemma validate_events_report (exts : list (Extension Container)) args :
  Forall report_only (validate_events exts args).
Proof.
  induction exts as [|ext exts IH]; simpl; [constructor|].
  constructor; [done|]. destruct (validate_environment ext args); [done|..];
    constructor.
Qed.

(** A registered extension whose predicate accepts the options is in the
    list [get_active_extensions] returns. *)
Lemma active_member extensions args order n e :
  wf_dict extensions →
  get_active_extensions extensions args = Ok order →
  dict_get n extensions = Some e →
  check_args_for_activation e args = true → e ∈ order.
Proof.
  intros Hwf Ho Hg Hp.
  destruct (get_active_extensions_spec extensions args Hwf)
    as (active & _ & Eg & Hwa & _ & _ & Hseed).
  rewrite Eg in Ho.
  destruct (sort_extensions_spec active args Hwa)
    as [(order' & E' & Hperm & _)|(m & E' & _)]; rewrite E' in Ho; [|done].
  injection Ho as ->. rewrite Hperm. apply values_elem; [done|].
  assert (get_name e = n) as ->; [|by apply Hseed].
  apply Hwf. by apply dict_get_elem.
Qed.

Lemma validated_blocked (order : list (Extension Container)) args ext err :
  ext ∈ order → validate_environment ext args = Raise err →
  validated order args ≠ Ok tt.
Proof.
  intros Hin Herr Hv. apply validated_Ok in Hv.
  rewrite Forall_forall in Hv. specialize (Hv ext Hin). congruence.
Qed.

Lemma run_unvalidated args s order :
  get_active_extensions (extensions s) args = Ok order →
  validated order args ≠ Ok tt →
  (∀ out, (run backend args s).2 ≠ Ok out) ∧
  Forall report_only (run backend args s).1.1.
Proof.
  intros Hget Hv. rewrite run_eq. simpl.
  unfold run_result, run_events. rewrite Hget, obind_Ok.
  destruct (validated order args) as [[]| |]; [done|..];
    (split; [done|]; rewrite app_nil_r; apply validate_events_report).
Qed.

(** X17. If the validation of any active extension raises, [run] does not
    return and calls nothing but validations: no mutation, no backend. *)
Theorem failed_validation_stops_run args s order ext err :
  get_active_extensions (extensions s) args = Ok order →
  ext ∈ order →
  validate_environment ext args = Raise err →
  (∀ out, (run backend args s).2 ≠ Ok out) ∧
  Forall report_only (run backend args s).1.1.
Proof.
  intros Hget Hin Herr. rewrite run_eq. simpl.
  unfold run_result, run_events. rewrite Hget, obind_Ok.
  pose proof (validated_blocked order args ext err Hin Herr) as Hv.
  destruct (validated order args) as [[]| |]; [done|..];
    (split; [done|]; rewrite app_nil_r; apply validate_events_report).
Qed.

Lemma stops_when_active args s ext err :
  wf_dict (extensions s) →
  dict_get (get_name ext) (extensions s) = Some ext →
  check_args_for_activation ext args = true →
  validate_environment ext args = Raise err →
  (∀ out, (run backend args s).2 ≠ Ok out) ∧
  Forall report_only (run backend args s).1.1.
Proof.
  intros Hwf Hg Hp Herr.
  destruct (get_active_extensions (extensions s) args) as [order|e|] eqn:Hget.
  - apply (run_unvalidated args s order Hget).
    eapply validated_blocked; [|done]. by eapply active_member.
  - rewrite run_eq. simpl. unfold run_result, run_events. by rewrite Hget.
  - rewrite run_eq. simpl. unfold run_result, run_events. by rewrite Hget.
Qed.

(** X18. With the detach extension registered, [--detach] together with
    [--interactive] is refused before anything is built: the validation
    raises, so [run] does not return and never reaches a mutation or the
    backend. *)
Theorem detach_conflict_stops_run args s :
  wf_dict (extensions s) →
  dict_get "detach" (extensions s) = Some DetachExtension →
  truthy (args_get "detach" args) = true →
  truthy (args_get "interactive" args) = true →
  validate_environment (@DetachExtension Container) args
  = Raise (RuntimeError "Cannot use both --detach and --interactive modes") ∧
  (∀ out, (run backend args s).2 ≠ Ok out) ∧
  Forall report_only (run backend args s).1.1.
Proof.
  intros Hwf Hg Hd Hi.
  assert (validate_environment (@DetachExtension Container) args
          = Raise (RuntimeError
                     "Cannot use both --detach and --interactive modes"))
    as Herr by (simpl; by rewrite Hd, Hi).
  split; [done|].
  by eapply (stops_when_active args s DetachExtension).
Qed.

Lemma network_mode_known_elem (v : Value) :
  network_mode_known v = true ↔
  v ∈ [VStr "bridge"; VStr "none"; VStr "host"].
Proof.
  rewrite !elem_of_cons, elem_of_nil.
  destruct v as [|b|m|l]; simpl; try naive_solver.
  rewrite !orb_true_iff, !bool_decide_eq_true. naive_solver.
Qed.

(** X19. The network extension's validation returns exactly for an empty or
    absent mode and for the modes bridge, none and host. *)
Theorem network_validation_accepts format args :
  validate_environment (@NetworkExtension Container format) args = Ok tt ↔
  truthy (args_get "network" args) = false ∨
  args_get "network" args ∈ [VStr "bridge"; VStr "none"; VStr "host"].
Proof.
  simpl. destruct (truthy (args_get "network" args)); simpl.
  - rewrite <- network_mode_known_elem.
    destruct (network_mode_known (args_get "network" args)); naive_solver.
  - naive_solver.
Qed.

(** X20. With the network extension registered, any other mode is refused
    before anything is built: the validation raises an error that quotes
    the mode, so [run] does not return and never reaches a mutation or
    the backend. *)
Theorem unknown_network_stops_run format args s :
  wf_dict (extensions s) →
  dict_get "network" (extensions s) = Some (NetworkExtension format) →
  truthy (args_get "network" args) = true →
  args_get "network" args ∉ [VStr "bridge"; VStr "none"; VStr "host"] →
  validate_environment (@NetworkExtension Container format) args
  = Raise (RuntimeError
             ("Invalid network mode: " +:+ format (args_get "network" args)
              +:+ ". Must be one of: bridge, none, host")) ∧
  (∀ out, (run backend args s).2 ≠ Ok out) ∧
  Forall report_only (run backend args s).1.1.
Proof.
  intros Hwf Hg Ht Hn.
  assert (validate_environment (@NetworkExtension Container format) args
          = Raise (RuntimeError
                     ("Invalid network mode: "
                      +:+ format (args_get "network" args)
                      +:+ ". Must be one of: bridge, none, host"))) as Herr.
  { simpl. rewrite Ht.
    destruct (network_mode_known (args_get "network" args)) eqn:Hk; [|done].
    by apply network_mode_known_elem in Hk. }
  split; [done|].
  by eapply (stops_when_active args s (NetworkExtension format)).
Qed.

(** X22. The basic, detach and network extensions never change the container:
    putting one of them anywhere in the order does not change how
    [build_and_run] ends. *)
Theorem builtin_noop_irrelevant format args s ext exts1 exts2 :
  ext ∈ [BasicExtension; DetachExtension; NetworkExtension format] →
  (build_and_run backend args (with_active s (exts1 ++ ext :: exts2))).2
  = (build_and_run backend args (with_active s (exts1 ++ exts2))).2.
Proof.
  intros Hin. rewrite !build_and_run_eq.
  cbn [snd active_extensions with_active].
  apply build_result_noop. intros c.
  rewrite !elem_of_cons, elem_of_nil in Hin.
  destruct Hin as [->|[->|[->|[]]]]; simpl; try done.
  by destruct (negb _).
Qed.

End ExtensionFacts.

(** ** Python's string operations *)

Section PyStrings.
Context (sep : ascii).

Lemma py_contains_app a b : py_contains sep (a +:+ String sep b) = true.
Proof.
  induction a as [|c a IH]; simpl.
  - by rewrite decide_True.
  - case_decide; [done | apply IH].
Qed.

Lemma py_split1_app a b :
  py_contains sep a = false →
  py_split1 sep (a +:+ String sep b) = (a, Some b).
Proof.
  induction a as [|c a IH]; simpl.
  - intros _. by rewrite decide_True.
  - case_decide; [done|]. intros Ha. by rewrite IH.
Qed.

Lemma py_split1_contains s :
  py_contains sep s = true →
  ∃ a b, py_split1 sep s = (a, Some b) ∧ s = a +:+ String sep b ∧
         py_contains sep a = false.
Proof.
  induction s as [|c s IH]; simpl; [done|]. case_decide as Hc.
  - subst c. intros _. by exists "", s.
  - intros Hs. destruct (IH Hs) as (a & b & E & -> & Ha).
    exists (String c a), b. rewrite E. split_and!; [done..|].
    cbn [py_contains]. by rewrite decide_False.
Qed.

Lemma py_split_none a :
  py_contains sep a = false → py_split sep a = (a, []).
Proof.
  induction a as [|c a IH]; simpl; [done|]. case_decide; [done|].
  intros Ha. by rewrite IH.
Qed.

Lemma py_split_app a b :
  py_contains sep a = false →
  py_split sep (a +:+ String sep b)
  = (a, (py_split sep b).1 :: (py_split sep b).2).
Proof.
  induction a as [|c a IH]; simpl.
  - intros _. destruct (py_split sep b). by rewrite decide_True.
  - case_decide; [done|]. intros Ha. by rewrite IH.
Qed.

End PyStrings.

(** ** The env and volume extensions *)

Section HostExtensionFacts.
Context {Container : Type} (host : Host) (sdk : Sdk Container).
Implicit Types (c : Container).

Lemma env_entry_Ok env_var c : ∃ c', env_entry host sdk env_var c = Ok c'.
Proof.
  unfold env_entry. destruct (py_contains "=" env_var) eqn:Hc; [|by eexists].
  apply py_split1_contains in Hc as (a & b & -> & _). by eexists.
Qed.

(** X23. [setup_container] of the env extension never raises: an entry is
    unpacked into name and value only when it contains an equals sign,
    and then the split has two parts. *)
Theorem env_setup_never_raises (env_vars : list string) c :
  ∃ c', env_setup host sdk env_vars c = Ok c'.
Proof.
  unfold env_setup. destruct (negb _); [by eexists|].
  revert c. induction env_vars as [|v env_vars IH]; intros c; [by eexists|].
  rewrite for_each_cons. destruct (env_entry_Ok v c) as [c' ->]. apply IH.
Qed.

(** X24. Entries written [NAME=VALUE], with no equals sign in the name, set
    exactly those variables to those values, in the order given; a value
    may itself contain equals signs. *)
Theorem env_setup_assignments (bindings : list (string * string)) c :
  Forall (fun b => py_contains "=" b.1 = false) bindings →
  env_setup host sdk (env_assignment <$> bindings) c
  = Ok (fold_left (fun c b => with_env_variable sdk b.1 b.2 c) bindings c).
Proof.
  intros Hb. unfold env_setup. destruct bindings as [|b0 bindings]; [done|].
  change (negb (truthy (VList (env_assignment <$> b0 :: bindings))))
    with false. cbn [negb].
  revert c. induction Hb as [|[n v] bs Hn _ IH]; intros c; [done|].
  rewrite fmap_cons, for_each_cons. unfold env_entry at 1.
  change (env_assignment (n, v)) with (n +:+ String "=" v).
  simpl in Hn.
  rewrite py_contains_app, py_split1_app by done. apply IH.
Qed.

(** X25. The volume extension's validation returns exactly when the host path
    of every volume, the text before its first colon with the home
    directory expanded, exists; otherwise it raises for the first volume
    whose host path is missing, naming that path. *)
Theorem volume_validate_spec (volumes : list string) :
  (volume_validate host volumes = Ok tt ↔
   Forall (fun v => path_exists host (expanduser host (py_split ":" v).1)
                    = true) volumes) ∧
  ∀ pre v post,
    volumes = pre ++ v :: post →
    Forall (fun v => path_exists host (expanduser host (py_split ":" v).1)
                     = true) pre →
    path_exists host (expanduser host (py_split ":" v).1) = false →
    volume_validate host volumes
    = Raise (RuntimeError
               ("Volume source path does not exist: "
                +:+ expanduser host (py_split ":" v).1)).
Proof.
  unfold volume_validate. split.
  - destruct volumes as [|v0 volumes]; [by split; [constructor|]|].
    change (negb (truthy (VList (v0 :: volumes)))) with false. cbn [negb].
    generalize (v0 :: volumes). clear. intros volumes.
    induction volumes as [|v volumes IH].
    + split; [constructor | done].
    + rewrite for_each_cons, Forall_cons. simpl.
      destruct (path_exists host _); simpl; naive_solver.
  - intros pre v post -> Hpre Hv.
    assert (negb (truthy (VList (pre ++ v :: post))) = false) as ->.
    { by destruct pre. }
    induction Hpre as [|p pre Hp _ IH].
    + simpl app. rewrite for_each_cons. simpl. by rewrite Hv.
    + rewrite <- app_comm_cons, for_each_cons. simpl. rewrite Hp. simpl.
      apply IH.
Qed.

(** X26. Where a volume is mounted. For a host path [h] without a colon:
    the spec [h] and the spec [h:] mount it at its own (expanded) path;
    [h:t] with a non-empty [t] mounts it at [t]; and anything after a
    second colon is ignored. *)
Theorem volume_mount_target (h t opts : string) c :
  py_contains ":" h = false →
  volume_mount host sdk h c
  = mount_at host sdk (expanduser host h) (expanduser host h) c ∧
  volume_mount host sdk (h +:+ ":") c
  = mount_at host sdk (expanduser host h) (expanduser host h) c ∧
  (py_contains ":" t = false → t ≠ "" →
   volume_mount host sdk (h +:+ ":" +:+ t) c
   = mount_at host sdk t (expanduser host h) c ∧
   volume_mount host sdk (h +:+ ":" +:+ t +:+ ":" +:+ opts) c
   = mount_at host sdk t (expanduser host h) c).
Proof.
  intros Hh. unfold volume_mount, mount_at, volume_container_path.
  split_and!.
  - by rewrite py_split_none.
  - change (h +:+ ":") with (h +:+ String ":" "").
    by rewrite py_split_app.
  - intros Ht Hne.
    assert (truthy (VStr t) = true) as Htr by by destruct t.
    split.
    + change (":" +:+ t) with (String ":" t).
      rewrite py_split_app by done. rewrite (py_split_none _ t) by done.
      cbn [fst snd]. by rewrite Htr.
    + change (":" +:+ t +:+ ":" +:+ opts)
        with (String ":" (t +:+ String ":" opts)).
      rewrite py_split_app by done. rewrite (py_split_app _ t) by done.
      cbn [fst snd]. by rewrite Htr.
Qed.

(** [setup_container] of the volume extension mounts the volumes in the
    order given. *)
Lemma volume_setup_fold (volumes : list string) c :
  volume_setup host sdk volumes c
  = fold_left (fun c v => volume_mount host sdk v c) volumes c.
Proof. unfold volume_setup. by destruct volumes. Qed.

End HostExtensionFacts.

(** * The registry of [cli.py] *)

Section CliBuiltin.
Context {Container : Type}.
Implicit Types (exts order : list (Extension Container)) (args : Args).

Lemma seed_fold_filter args (l acc : list (string * Extension Container)) :
  NoDup (keys (acc ++ l)) →
  fold_left
    (fun active '(name, ext) =>
       if check_args_for_activation ext args
       then dict_set name ext active else active) l acc
  = acc ++ filter (fun p => check_args_for_activation p.2 args = true) l.
Proof.
  revert acc. induction l as [|[k e] l IH]; intros acc Hnd; cbn [fold_left].
  - by rewrite app_nil_r.
  - assert (k ∉ keys acc) as Hk.
    { unfold keys in *. rewrite fmap_app in Hnd.
      apply NoDup_app in Hnd as (_ & Hd & _). intros Hin.
      apply (Hd k Hin). simpl. by apply elem_of_cons; left. }
    destruct (check_args_for_activation e args) eqn:Hp.
    + rewrite dict_set_new by done. rewrite IH.
      * rewrite filter_cons_True by exact Hp. by rewrite <- app_assoc.
      * by rewrite <- app_assoc.
    + rewrite filter_cons_False by (simpl; congruence). apply IH.
      unfold keys in *. rewrite fmap_app in *. simpl in Hnd.
      apply NoDup_app in Hnd as (Ha & Hd & Hl).
      apply NoDup_cons in Hl as [_ Hl].
      apply NoDup_app. split_and!; [done| |done].
      intros x Hx Hx'. apply (Hd x Hx). by apply elem_of_cons; right.
Qed.

(** X5. The active set lists the predicate-activated extensions first, in
    registry order, and after them the extensions pulled in as
    dependencies, none of which is activated by its own predicate. *)
Theorem resolve_active_order
    (extensions : list (string * Extension Container)) args :
  wf_dict extensions →
  ∃ added,
    resolve_active extensions args
    = Ok (filter (fun p => check_args_for_activation p.2 args = true)
            extensions ++ added) ∧
    ∀ k e, (k, e) ∈ added → check_args_for_activation e args = false.
Proof.
  intros [Hnd Hk].
  assert (initially_requested extensions args
          = filter (fun p => check_args_for_activation p.2 args = true)
              extensions) as Hseed.
  { unfold initially_requested. by rewrite seed_fold_filter. }
  destruct (expand_spec extensions args (S (length extensions))
              (initially_requested extensions args))
    as (suf & E & N & S' & _);
    [apply initially_requested_NoDup | by apply initially_requested_sound
    | lia |].
  exists suf. unfold resolve_active. rewrite E, Hseed. split; [done|].
  intros k e Hin.
  destruct (check_args_for_activation e args) eqn:Hp; [|done]. exfalso.
  assert ((k, e) ∈ initially_requested extensions args) as Hin'.
  { apply dict_get_elem. rewrite initially_requested_get by done.
    destruct (S' k e) as [-> _]; [apply elem_of_app; by right|].
    by rewrite Hp. }
  unfold keys in N. rewrite fmap_app in N.
  apply NoDup_app in N as (_ & Hd & _).
  apply (Hd k).
  - apply list_elem_of_fmap. by exists (k, e).
  - apply list_elem_of_fmap. by exists (k, e).
Qed.

Lemma cli_builtin_inv exts :
  cli_builtin exts →
  ∃ b u v h x e n d,
    exts = [b; u; v; h; x; e; n; d] ∧
    declares b ("basic", true, [], []) ∧
    declares u ("user", false, [], []) ∧
    declares v ("volume", false, [], ["user"]) ∧
    declares h ("home", false, ["user"], ["user"]) ∧
    declares x ("x11", false, [], ["user"]) ∧
    declares e ("env", false, [], []) ∧
    declares n ("network", false, [], []) ∧
    declares d ("detach", false, [], []).
Proof.
  unfold cli_builtin, cli_table. intros H.
  repeat match goal with
         | H : Forall2 _ _ (_ :: _) |- _ =>
             apply Forall2_cons_inv_r in H as (? & ? & ? & H & ->)
         | H : Forall2 _ _ [] |- _ => apply Forall2_nil_inv_r in H as ->
         end.
  do 8 eexists. split; [reflexivity|]. split_and!; eassumption.
Qed.

Lemma cli_registry exts :
  cli_builtin exts →
  registered exts [] = (fun e => (get_name e, e)) <$> exts ∧
  wf_dict (registered exts []) ∧
  keys (registered exts [])
  = ["basic"; "user"; "volume"; "home"; "x11"; "env"; "network"; "detach"].
Proof.
  intros Hb.
  destruct (cli_builtin_inv exts Hb)
    as (b & u & v & h & x & e & n & d & -> & Db & Du & Dv & Dh & Dx & De
        & Dn & Dd).
  destruct Db as (Nb & _), Du as (Nu & _), Dv as (Nv & _), Dh as (Nh & _),
    Dx as (Nx & _), De as (Ne & _), Dn as (Nn & _), Dd as (Nd & _).
  assert (get_name <$> [b; u; v; h; x; e; n; d]
          = ["basic"; "user"; "volume"; "home"; "x11"; "env"; "network";
             "detach"]) as Hnames.
  { simpl. by rewrite Nb, Nu, Nv, Nh, Nx, Ne, Nn, Nd. }
  assert (registered [b; u; v; h; x; e; n; d] []
          = (fun e => (get_name e, e)) <$> [b; u; v; h; x; e; n; d]) as Hreg.
  { rewrite registered_fresh; [done| |].
    - rewrite Hnames. compute_done.
    - intros k _ Hin. by apply elem_of_nil in Hin. }
  split_and!; [done | apply registered_wf, wf_dict_nil |].
  rewrite Hreg. unfold keys. by rewrite <- list_fmap_compose.
Qed.

(** What the classes of [cli.py] hint: nothing, or the user extension
    alone, which itself hints nothing. *)
Lemma cli_hints exts e :
  cli_builtin exts → e ∈ exts →
  get_load_order_hints e = [] ∨
  (get_load_order_hints e = ["user"] ∧ get_name e ≠ "user").
Proof.
  intros Hb Hin.
  destruct (cli_builtin_inv exts Hb)
    as (b & u & v & h & x & e' & n & d & -> & Db & Du & Dv & Dh & Dx & De
        & Dn & Dd).
  destruct Db as (Nb & _ & _ & Hb'), Du as (Nu & _ & _ & Hu),
    Dv as (Nv & _ & _ & Hv), Dh as (Nh & _ & _ & Hh),
    Dx as (Nx & _ & _ & Hx), De as (Ne & _ & _ & He),
    Dn as (Nn & _ & _ & Hn), Dd as (Nd & _ & _ & Hd).
  rewrite !elem_of_cons, elem_of_nil in Hin.
  destruct Hin as [->|[->|[->|[->|[->|[->|[->|[->|[]]]]]]]]];
    try (by left); right; split; try done; congruence.
Qed.

Lemma cli_entry exts (active : dict (Extension Container)) args k e :
  cli_builtin exts →
  sound (registered exts []) args active →
  dict_get k active = Some e → e ∈ exts ∧ get_name e = k.
Proof.
  intros Hb Hs Hg.
  destruct (cli_registry exts Hb) as (Hreg & Hwf & _).
  apply dict_get_elem, Hs in Hg as [Hg _].
  apply dict_get_elem in Hg. split; [|by apply Hwf].
  rewrite Hreg in Hg. apply list_elem_of_fmap in Hg as (e0 & [= _ ->] & ?).
  done.
Qed.

(** X27. With the extensions [cli.py] registers, resolution and ordering
    succeed for every option set: their hints cannot form a cycle. *)
Theorem cli_builtin_always_resolves exts args :
  cli_builtin exts →
  ∃ order, get_active_extensions (registered exts []) args = Ok order.
Proof.
  intros Hb. destruct (cli_registry exts Hb) as (Hreg & Hwf & Hkeys).
  destruct (get_active_extensions_spec _ args Hwf)
    as (active & _ & Eg & Hwa & Hs & _).
  rewrite Eg.
  destruct (sort_extensions_spec active args Hwa)
    as [(order & E & _)|(n & _ & Hcyc)]; [by exists order|].
  exfalso. revert n Hcyc.
  apply (acyclic_ranked active
           (fun n => if decide (n = "user") then 0 else 1)).
  intros E P (e & Hg & Hp & _).
  destruct (cli_entry exts active args E e Hb Hs Hg) as [He Hn].
  destruct (cli_hints exts e Hb He) as [Hh|[Hh Hne]]; rewrite Hh in Hp.
  - by apply elem_of_nil in Hp.
  - apply list_elem_of_singleton in Hp as ->.
    rewrite decide_True by done. rewrite decide_False by congruence. lia.
Qed.

(** X28. With the extensions [cli.py] registers, the user extension, when
    active, is placed before the volume, home and x11 extensions; and
    [--home] always brings the user extension in. *)
Theorem cli_builtin_user_first exts args order :
  cli_builtin exts →
  get_active_extensions (registered exts []) args = Ok order →
  (∀ E, E ∈ ["volume"; "home"; "x11"] →
        E ∈ get_name <$> order → "user" ∈ get_name <$> order →
        strictly_before "user" E (get_name <$> order)) ∧
  (truthy (args_get "home" args) = true →
   "home" ∈ get_name <$> order ∧ "user" ∈ get_name <$> order ∧
   strictly_before "user" "home" (get_name <$> order)).
Proof.
  intros Hb Ho. destruct (cli_registry exts Hb) as (Hreg & Hwf & Hkeys).
  destruct (get_active_extensions_spec _ args Hwf)
    as (active & _ & Eg & Hwa & Hs & Hc & Hseed).
  rewrite Eg in Ho.
  destruct (sort_extensions_spec active args Hwa)
    as [(order' & E' & Hperm & _ & Hnames & Hord)|(n & E' & _)];
    rewrite E' in Ho; [|done].
  injection Ho as ->.
  destruct (cli_builtin_inv exts Hb)
    as (b & u & v & h & x & e' & n & d & Hexts & Db & Du & Dv & Dh & Dx & De
        & Dn & Dd).
  assert (∀ E, E ∈ ["volume"; "home"; "x11"] →
               E ∈ get_name <$> order → "user" ∈ get_name <$> order →
               strictly_before "user" E (get_name <$> order)) as Hfirst.
  { intros E HE Hin Hu. rewrite Hnames in Hin, Hu.
    apply keys_dict_get in Hin as [e He].
    destruct (cli_entry exts active args E e Hb Hs He) as [Hex Hn].
    apply Hord. exists e. split_and!; [done| |done].
    subst exts. rewrite !elem_of_cons, elem_of_nil in Hex.
    rewrite !elem_of_cons, elem_of_nil in HE.
    destruct Dv as (Nv & _ & _ & Hv), Dh as (Nh & _ & _ & Hh),
      Dx as (Nx & _ & _ & Hx), Db as (Nb & _), Du as (Nu & _),
      De as (Ne & _), Dn as (Nn & _), Dd as (Nd & _).
    destruct Hex as [->|[->|[->|[->|[->|[->|[->|[->|[]]]]]]]]];
      try (rewrite Hv; set_solver); try (rewrite Hh; set_solver);
      try (rewrite Hx; set_solver);
      destruct HE as [->|[->|[->|[]]]]; congruence. }
  split; [done|]. intros Hhome.
  destruct Dh as (Nh & Ph & Dh' & Hh).
  assert (dict_get "home" (registered exts []) = Some h) as Hg.
  { apply elem_dict_get; [apply Hwf|]. rewrite Hreg, Hexts.
    apply list_elem_of_fmap. exists h. rewrite Nh. split; [done|].
    set_solver. }
  assert (dict_get "home" active = Some h) as Hga.
  { apply Hseed; [done|]. rewrite Ph. done. }
  assert ("home" ∈ get_name <$> order) as Hin.
  { rewrite Hnames. by eapply dict_get_key. }
  assert ("user" ∈ get_name <$> order) as Hu.
  { rewrite Hnames. eapply (Hc "home" h Hga).
    - rewrite Dh'. set_solver.
    - rewrite Hkeys. set_solver. }
  split_and!; [done..|]. apply Hfirst; [set_solver|done..].
Qed.

End CliBuiltin.

(** ** The home extension *)

Section HomeFacts.
Context {Container : Type} (backend : Backend Container).
Context (host : Host) (sdk : Sdk Container).

(** X21. With the home extension registered and requested, a missing home
    directory is refused before anything is built: the validation raises
    an error that names the directory, so [run] does not return and never
    reaches a mutation or the backend. *)
Theorem missing_home_stops_run args (s : Core Container) :
  wf_dict (extensions s) →
  dict_get "home" (extensions s) = Some (HomeExtension host sdk) →
  truthy (args_get "home" args) = true →
  path_exists host (expanduser host "~") = false →
  validate_environment (HomeExtension host sdk) args
  = Raise (RuntimeError
             ("Home directory does not exist: " +:+ expanduser host "~")) ∧
  (∀ out, (run backend args s).2 ≠ Ok out) ∧
  Forall report_only (run backend args s).1.1.
Proof.
  intros Hwf Hg Ht Hp.
  assert (validate_environment (HomeExtension host sdk) args
          = Raise (RuntimeError
                     ("Home directory does not exist: "
                      +:+ expanduser host "~"))) as Herr.
  { simpl. by rewrite Hp. }
  split; [done|].
  by eapply (stops_when_active backend args s (HomeExtension host sdk)).
Qed.

End HomeFacts.

(** * The further properties at sample inputs *)

Section MoreWitnesses.
Import Samples.



Lemma cli_extensions_builtin : cli_builtin cli_extensions.
Proof.
  unfold cli_builtin, cli_extensions, cli_table.
  repeat constructor; simpl; split_and!; done.
Qed.

Lemma valid3 args :
  Forall (fun e : Extension Log => validate_environment e args = Ok tt)
    [basic; user; home].
Proof. by repeat constructor. Qed.

Lemma active_iff_reachable_witness :
  ∃ active,
    resolve_active registry args_home = Ok active ∧
    ∀ n, n ∈ keys active ↔ reachable registry args_home n.
Proof. exact (active_iff_reachable registry args_home registry_wf). Defined.

Lemma sort_ok_iff_acyclic_witness :
  ((∃ order, _sort_extensions active_cycle args_cycle = Ok order) ↔
   acyclic active_cycle) ∧
  (¬ acyclic active_cycle →
   ∃ n, _sort_extensions active_cycle args_cycle
        = Raise (ValueError ("Circular dependency detected involving " +:+ n))
        ∧ n ∈ keys active_cycle ∧ tc (hinted active_cycle) n n).
Proof.
  exact (sort_ok_iff_acyclic active_cycle args_cycle active_cycle_wf).
Defined.


Lemma registered_in_order_witness :
  registered builtin [] = (fun e => (get_name e, e)) <$> builtin ∧
  keys (registered builtin []) = get_name <$> builtin ∧
  values (registered builtin []) = builtin.
Proof. apply (registered_in_order builtin). compute_done. Defined.

Lemma resolve_active_order_witness :
  ∃ added,
    resolve_active registry args_home
    = Ok (filter (fun p => check_args_for_activation p.2 args_home = true)
            registry ++ added) ∧
    ∀ k e, (k, e) ∈ added → check_args_for_activation e args_home = false.
Proof. exact (resolve_active_order registry args_home registry_wf). Defined.

Lemma run_returns_iff_witness :
  (run backend args_home core).2 = Ok "from,basic,user,home,exec" ↔
  ∃ order image final,
    get_active_extensions (extensions core) args_home = Ok order ∧
    Forall (fun e => validate_environment e args_home = Ok tt) order ∧
    connect backend = Ok tt ∧
    dict_get "image" args_home = Some image ∧
    mutated order (from_ backend image) args_home = Ok final ∧
    stdout backend (with_exec backend (run_command args_home) final)
    = Ok "from,basic,user,home,exec".
Proof.
  apply (run_returns_iff backend args_home core). reflexivity.
Defined.

Lemma core_main_basic_only_witness :
  core_main backend args_dry new_core
  = (EvPrint (LActive ["basic"]) :: EvValidate "basic"
       :: (if truthy (args_get "dry_run" args_dry) then [EvPrint LDryRun]
           else build_events backend args_dry [BasicExtension]),
     {| extensions := [("basic", BasicExtension)];
        active_extensions := [BasicExtension] |},
     if truthy (args_get "dry_run" args_dry) then Ok tt
     else build_result backend args_dry [BasicExtension] ≫= fun _ => Ok tt) ∧
  ∀ image,
    dict_get "image" args_dry = Some image → connect backend = Ok tt →
    build_events backend args_dry [BasicExtension]
    = EvConnect :: EvFrom image :: EvSetup "basic" (from_ backend image)
        :: EvWithExec (build_command args_dry) (from_ backend image)
        :: EvSync (with_exec backend (build_command args_dry)
                     (from_ backend image))
        :: match sync backend
                   (with_exec backend (build_command args_dry)
                      (from_ backend image)) with
           | Diverge => []
           | _ => [EvDisconnect]
           end.
Proof.
  apply (core_main_basic_only backend args_dry). reflexivity.
Defined.

Lemma run_missing_image_witness :
  run backend args_noimage core
  = ((EvValidate <$> (get_name <$> [basic; user; home]))
       ++ [EvConnect; EvDisconnect],
     with_active core [basic; user; home], Raise (KeyError "image")).
Proof.
  apply (run_missing_image backend args_noimage core [basic; user; home]);
    [vm_compute; reflexivity | apply valid3 | reflexivity | reflexivity].
Defined.

Lemma run_connect_failure_witness :
  run backend_down args_home core
  = ((EvValidate <$> (get_name <$> [basic; user; home])) ++ [EvConnect],
     with_active core [basic; user; home],
     Raise (RuntimeError "connection refused")).
Proof.
  apply (run_connect_failure backend_down args_home core [basic; user; home]);
    [vm_compute; reflexivity | apply valid3 | reflexivity].
Defined.

Lemma run_mutation_failure_witness :
  run backend args_x
    {| extensions := registry_of [basic; broken "x"; user];
       active_extensions := [] |}
  = ((EvValidate <$> (get_name <$> [basic] ++ broken "x" :: []))
       ++ [EvConnect; EvFrom (VStr "ubuntu")]
       ++ setup_events [basic] (from_ backend (VStr "ubuntu")) args_x
       ++ [EvSetup (get_name (broken "x")) ["from"; "basic"]; EvDisconnect],
     with_active
       {| extensions := registry_of [basic; broken "x"; user];
          active_extensions := [] |} ([basic] ++ broken "x" :: []),
     Raise (RuntimeError "mount rejected")).
Proof.
  apply (run_mutation_failure backend args_x _ [basic] (broken "x") []
           (VStr "ubuntu") ["from"; "basic"]);
    [reflexivity | vm_compute; reflexivity | by repeat constructor
    | reflexivity..].
Defined.

Lemma noop_extension_irrelevant_witness :
  (build_and_run backend args_home
     (with_active core ([user] ++ BasicExtension :: [home]))).2
  = (build_and_run backend args_home (with_active core ([user] ++ [home]))).2.
Proof.
  apply (noop_extension_irrelevant backend args_home core BasicExtension
           [user] [home]).
  intros c. reflexivity.
Defined.

Lemma resolution_error_at_entry_witness :
  cli_main backend [mock_b; mock_a] args_cycle new_core
  = ([EvPrint
        (LResolveError
           (ValueError "Circular dependency detected involving b"))],
     {| extensions := registered [mock_b; mock_a] (extensions new_core);
        active_extensions := active_extensions new_core |}, Ok 1) ∧
  main_main backend [mock_b; mock_a] args_cycle new_core
  = ([],
     {| extensions := registered [mock_b; mock_a] (extensions new_core);
        active_extensions := active_extensions new_core |},
     Raise (ValueError "Circular dependency detected involving b")).
Proof.
  apply (resolution_error_at_entry backend [mock_b; mock_a] args_cycle
           new_core).
  vm_compute. reflexivity.
Defined.

Lemma validation_error_at_entry_witness :
  cli_main backend [basic; failing "x"; user] args_x new_core
  = (EvPrint (LActive (get_name <$> [basic; failing "x"]))
       :: (EvValidate <$> (get_name <$> [basic] ++ [failing "x"]))
       ++ [EvPrint
             (LValidateError (get_name (failing "x"))
                (RuntimeError "Home directory does not exist"))],
     resolved_core [basic; failing "x"; user] new_core [basic; failing "x"],
     Ok 1) ∧
  main_main backend [basic; failing "x"; user] args_x new_core
  = (EvPrint (LActive (get_name <$> [basic; failing "x"]))
       :: (EvValidate <$> (get_name <$> [basic] ++ [failing "x"]))
       ++ [EvPrint
             (LValidateError (get_name (failing "x"))
                (RuntimeError "Home directory does not exist"))],
     resolved_core [basic; failing "x"; user] new_core [basic; failing "x"],
     Ok 1).
Proof.
  apply (validation_error_at_entry backend [basic; failing "x"; user] args_x
           new_core [basic; failing "x"]
           ltac:(vm_compute; reflexivity) [basic] (failing "x") []);
    [reflexivity | by repeat constructor | reflexivity].
Defined.

Lemma builtin_resolved :
  get_active_extensions (registered builtin (extensions new_core)) args_home
  = Ok [basic; user; home].
Proof. vm_compute. reflexivity. Qed.

Lemma cli_main_run_witness :
  cli_main backend builtin args_home new_core
  = (EvPrint (LActive (get_name <$> [basic; user; home]))
       :: (EvValidate <$> (get_name <$> [basic; user; home]))
       ++ run_events backend args_home
            (registered builtin (extensions new_core))
       ++ match run_result backend args_home
                  (registered builtin (extensions new_core)) with
          | Ok out => [EvPrint (LResult out)]
          | Raise e => [EvPrint (LRunError e)]
          | Diverge => []
          end,
     resolved_core builtin new_core [basic; user; home],
     match run_result backend args_home
             (registered builtin (extensions new_core)) with
     | Ok _ => Ok 0
     | Raise _ => Ok 1
     | Diverge => Diverge
     end) ∧
  ∃ rest,
    run_events backend args_home (registered builtin (extensions new_core))
    = (EvValidate <$> (get_name <$> [basic; user; home]))
        ++ EvConnect :: rest.
Proof.
  apply (cli_main_run backend builtin args_home new_core [basic; user; home]
           builtin_resolved (valid3 args_home)); reflexivity.
Defined.

Lemma main_main_run_witness :
  main_main backend builtin args_home new_core
  = (EvPrint (LActive (get_name <$> [basic; user; home]))
       :: (EvValidate <$> (get_name <$> [basic; user; home]))
       ++ build_events backend args_home [basic; user; home]
       ++ match build_result backend args_home [basic; user; home] with
          | Raise e => [EvPrint (LRunError e)]
          | _ => []
          end,
     resolved_core builtin new_core [basic; user; home],
     match build_result backend args_home [basic; user; home] with
     | Ok _ => Ok 0
     | Raise _ => Ok 1
     | Diverge => Diverge
     end).
Proof.
  apply (main_main_run backend builtin args_home new_core [basic; user; home]
           builtin_resolved (valid3 args_home)); reflexivity.
Defined.

Lemma cli_main_never_raises_witness :
  never_raises (cli_main backend builtin args_home).
Proof.
  apply (cli_main_never_raises backend builtin args_home).
  reflexivity.
Defined.

Lemma failed_validation_stops_run_witness :
  (∀ out,
     (run backend args_x
        {| extensions := registry_of [basic; failing "x"; user];
           active_extensions := [] |}).2 ≠ Ok out) ∧
  Forall report_only
    (run backend args_x
       {| extensions := registry_of [basic; failing "x"; user];
          active_extensions := [] |}).1.1.
Proof.
  apply (failed_validation_stops_run backend args_x _ [basic; failing "x"]
           (failing "x") (RuntimeError "Home directory does not exist"));
    [vm_compute; reflexivity | | reflexivity].
  apply elem_of_cons. right. apply elem_of_cons. by left.
Defined.

Lemma core_cli_wf : wf_dict (extensions core_cli).
Proof. apply registered_wf, wf_dict_nil. Qed.

Lemma detach_conflict_stops_run_witness :
  validate_environment (@DetachExtension Log) args_conflict
  = Raise (RuntimeError "Cannot use both --detach and --interactive modes") ∧
  (∀ out, (run backend args_conflict core_cli).2 ≠ Ok out) ∧
  Forall report_only (run backend args_conflict core_cli).1.1.
Proof.
  apply (detach_conflict_stops_run backend args_conflict core_cli core_cli_wf);
    reflexivity.
Defined.

Lemma unknown_network_stops_run_witness :
  validate_environment (@NetworkExtension Log sample_format) args_mesh
  = Raise (RuntimeError
             ("Invalid network mode: "
              +:+ sample_format (args_get "network" args_mesh)
              +:+ ". Must be one of: bridge, none, host")) ∧
  (∀ out, (run backend args_mesh core_cli).2 ≠ Ok out) ∧
  Forall report_only (run backend args_mesh core_cli).1.1.
Proof.
  apply (unknown_network_stops_run backend sample_format args_mesh core_cli
           core_cli_wf); [reflexivity | reflexivity |].
  intros H. repeat (apply elem_of_cons in H as [H|H]; [discriminate|]).
  by apply elem_of_nil in H.
Defined.

Lemma missing_home_stops_run_witness :
  validate_environment (HomeExtension homeless_host sample_sdk) args_home
  = Raise (RuntimeError
             ("Home directory does not exist: "
              +:+ expanduser homeless_host "~")) ∧
  (∀ out,
     (run backend args_home
        {| extensions :=
             registered [BasicExtension; user;
                         HomeExtension homeless_host sample_sdk] [];
           active_extensions := [] |}).2 ≠ Ok out) ∧
  Forall report_only
    (run backend args_home
       {| extensions :=
            registered [BasicExtension; user;
                        HomeExtension homeless_host sample_sdk] [];
          active_extensions := [] |}).1.1.
Proof.
  apply (missing_home_stops_run backend homeless_host sample_sdk args_home
           {| extensions :=
                registered [BasicExtension; user;
                            HomeExtension homeless_host sample_sdk] [];
              active_extensions := [] |});
    [apply registered_wf, wf_dict_nil | reflexivity..].
Defined.

Lemma builtin_noop_irrelevant_witness :
  (build_and_run backend args_home
     (with_active core ([user] ++ DetachExtension :: [home]))).2
  = (build_and_run backend args_home (with_active core ([user] ++ [home]))).2.
Proof.
  apply (builtin_noop_irrelevant backend sample_format args_home core
           DetachExtension [user] [home]).
  apply elem_of_cons. right. apply elem_of_cons. by left.
Defined.

Lemma env_setup_assignments_witness :
  env_setup sample_host sample_sdk
    (env_assignment <$> [("A", "1"); ("B", "x=y")]) ["from"]
  = Ok (fold_left (fun c b => with_env_variable sample_sdk b.1 b.2 c)
          [("A", "1"); ("B", "x=y")] ["from"]).
Proof.
  apply (env_setup_assignments sample_host sample_sdk
           [("A", "1"); ("B", "x=y")] ["from"]).
  by repeat constructor.
Defined.

Lemma volume_mount_target_witness :
  volume_mount sample_host sample_sdk "~/src" ["from"]
  = mount_at sample_host sample_sdk (expanduser sample_host "~/src")
      (expanduser sample_host "~/src") ["from"] ∧
  volume_mount sample_host sample_sdk ("~/src" +:+ ":") ["from"]
  = mount_at sample_host sample_sdk (expanduser sample_host "~/src")
      (expanduser sample_host "~/src") ["from"] ∧
  (py_contains ":" "/data" = false → "/data" ≠ "" →
   volume_mount sample_host sample_sdk ("~/src" +:+ ":" +:+ "/data") ["from"]
   = mount_at sample_host sample_sdk "/data"
       (expanduser sample_host "~/src") ["from"] ∧
   volume_mount sample_host sample_sdk
     ("~/src" +:+ ":" +:+ "/data" +:+ ":" +:+ "ro") ["from"]
   = mount_at sample_host sample_sdk "/data"
       (expanduser sample_host "~/src") ["from"]).
Proof.
  apply (volume_mount_target sample_host sample_sdk "~/src" "/data" "ro"
           ["from"]).
  reflexivity.
Defined.

Lemma cli_builtin_always_resolves_witness :
  ∃ order, get_active_extensions (registered cli_extensions []) args_home
           = Ok order.
Proof.
  exact (cli_builtin_always_resolves cli_extensions args_home
           cli_extensions_builtin).
Defined.

Lemma cli_builtin_user_first_witness :
  (∀ E, E ∈ ["volume"; "home"; "x11"] →
        E ∈ get_name <$> [BasicExtension; user;
                          HomeExtension sample_host sample_sdk] →
        "user" ∈ get_name <$> [BasicExtension; user;
                               HomeExtension sample_host sample_sdk] →
        strictly_before "user" E
          (get_name <$> [BasicExtension; user;
                         HomeExtension sample_host sample_sdk])) ∧
  (truthy (args_get "home" args_home) = true →
   "home" ∈ get_name <$> [BasicExtension; user;
                          HomeExtension sample_host sample_sdk] ∧
   "user" ∈ get_name <$> [BasicExtension; user;
                          HomeExtension sample_host sample_sdk] ∧
   strictly_before "user" "home"
     (get_name <$> [BasicExtension; user;
                    HomeExtension sample_host sample_sdk])).
Proof.
  apply (cli_builtin_user_first cli_extensions args_home _
           cli_extensions_builtin).
  vm_compute. reflexivity.
Defined.

(** The volume and env extensions on sample entries. *)

Example volume_validate_example :
  volume_validate sample_host ["/tmp:/data"; "~/missing:/x"; "/etc/hosts"]
  = Raise (RuntimeError "Volume source path does not exist: /home/u/missing").
Proof. vm_compute. reflexivity. Qed.

Example env_setup_example :
  env_setup sample_host sample_sdk ["A=1"; "TERM"; "UNSET"; "B=x=y"] []
  = Ok ["env A=1"; "env TERM=xterm"; "env UNSET="; "env B=x=y"].
Proof. vm_compute. reflexivity. Qed.

Example volume_setup_example :
  volume_setup sample_host sample_sdk
    ["/tmp"; "~/src:/work:ro"; "/etc/hosts:"] []
  = ["dir /tmp at /tmp"; "dir /home/u/src at /work";
     "file /etc/hosts at /etc/hosts"].
Proof. vm_compute. reflexivity. Qed.

End MoreWitnesses.
